(** * Verification of the MA-cross backtest kernel

    Shallow embedding of [src/native_ext/backtest_core.c]: the moving-average
    engine [compute_sma] and the portfolio state machine of
    [ma_cross_backtest], followed by the properties stated about them.

    The C code computes on [double].  The kernel below is written once, over
    an interface [Double] of the operations the C code uses, and is run on two
    arithmetics:

    - [B64.double]: IEEE 754 binary64, as specified by the Standard Library's
      [SpecFloat] (round to nearest even, signed zeros, infinities, one NaN).
      Every operation of the source is rounded on its own, as a compiler does
      that neither contracts [a*b+c] nor keeps excess precision.  This is what
      the compiled code computes.
    - [XQ.xq]: exact rationals extended with one undefined value: the same
      kernel when no operation rounds.  It only serves to show that a guard
      of the entry fill acts whatever the arithmetic; the statements about
      the program are on [B64.double], or hold in every arithmetic.

    Properties of the control flow are proved for every arithmetic that
    satisfies the few laws of comparison and NaN listed in [Double]; both
    arithmetics do.

    Arrays are lists; [x[i]] is [nth i x dnan], and every index the source
    reads is within bounds.  [fast], [slow] and the counters are C [int] and
    array indices are [npy_intp]; they are modelled by [Z] and [nat].  The
    sum [slow+2] of line 46 is computed in [int] and wraps around
    ([int_wrap]); the other operations on them ([i+1], [i-w], [trades++],
    [wins++]) are bounded by the array length.  The input is a
    one-dimensional float64 array, and the two [malloc] calls succeed. *)

From Stdlib Require Import ZArith QArith Qround Qabs List Bool Lia.
From Stdlib Require Import Floats.
Import ListNotations.

Set Implicit Arguments.

(** ** The arithmetic interface *)

Class Double (D : Type) : Type := {
  dadd : D -> D -> D;
  dsub : D -> D -> D;
  dmul : D -> D -> D;
  ddiv : D -> D -> D;
  dopp : D -> D;
  dfabs : D -> D;                 (* fabs *)
  dfloor : D -> D;                (* floor *)
  dlt : D -> D -> bool;           (* x < y *)
  dle : D -> D -> bool;           (* x <= y *)
  disnan : D -> bool;             (* isnan *)
  dnan : D;                       (* NAN *)
  of_Z : Z -> D;                  (* an integer constant, or (double)k *)

  (* What the proofs use of the comparisons and of NaN. *)
  dlt_zero_zero : dlt (of_Z 0) (of_Z 0) = false;
  dle_zero_zero : dle (of_Z 0) (of_Z 0) = true;
  dle_zero_initial : dle (of_Z 0) (of_Z 10000) = true;
  disnan_zero : disnan (of_Z 0) = false;
  disnan_nan : disnan dnan = true;
  dle_of_not_lt : forall x, dlt x (of_Z 0) = false -> disnan x = false ->
                            dle (of_Z 0) x = true;
  dlt_dle : forall x y, dlt x y = true -> dle x y = true;
  dle_zero_dlt : forall x y, dle (of_Z 0) x = true -> dlt x y = true ->
                             dle (of_Z 0) y = true;
  dle_refl : forall x, disnan x = false -> dle x x = true;
  dlt_notnan_l : forall x y, dlt x y = true -> disnan x = false;
  dlt_notnan_r : forall x y, dlt x y = true -> disnan y = false;
  dmul_nan_l : forall x y, disnan x = true -> disnan (dmul x y) = true
}.

Declare Scope double_scope.
Delimit Scope double_scope with D.
Infix "+" := dadd : double_scope.
Infix "-" := dsub : double_scope.
Infix "*" := dmul : double_scope.
Infix "/" := ddiv : double_scope.
Notation "- x" := (dopp x) : double_scope.
Infix "<?" := dlt : double_scope.
Infix "<=?" := dle : double_scope.
Notation "x >? y" := (dlt y x) : double_scope.
Notation "x >=? y" := (dle y x) : double_scope.

(** A decimal constant [n/d] of the source ([1e-12] is [lit 1 (10^12)]).  Both
    [n] and [d] are below [2^53], so they are exact doubles and the correctly
    rounded quotient is the correctly rounded constant. *)
Definition lit {D} `{Double D} (n d : Z) : D := (of_Z n / of_Z d)%D.

(** ** IEEE 754 binary64 *)

Module B64.

Definition prec : Z := 53.
Definition emax : Z := 1024.

Definition double : Type := spec_float.

Definition is_nan (x : double) : bool :=
  match x with S754_nan => true | _ => false end.

Definition of_int (z : Z) : double := binary_normalize prec emax z 0 false.

(** C99 [floor]: the largest integral value not above [x].  A finite double
    with a non-negative exponent is integral; otherwise the integer part has
    at most 53 bits and converts exactly. *)
Definition floor (x : double) : double :=
  match x with
  | S754_finite s m e =>
      if (0 <=? e)%Z then x
      else
        let z := ((if s then Z.neg m else Z.pos m) / 2 ^ (- e))%Z in
        binary_normalize prec emax z 0 s
  | _ => x
  end.

Lemma compare_refl (x : double) : is_nan x = false -> SFcompare x x = Some Eq.
Proof.
  destruct x as [s|s| |s m e]; simpl; try discriminate; intros _.
  - reflexivity.
  - destruct s; reflexivity.
  - rewrite Z.compare_refl.
    assert (Hm : Pos.compare_cont Eq m m = Eq) by apply Pos.compare_refl.
    destruct s; rewrite Hm; reflexivity.
Qed.

Lemma leb_refl (x : double) : is_nan x = false -> SFleb x x = true.
Proof. intros H. unfold SFleb. rewrite (compare_refl x H). reflexivity. Qed.

Lemma ltb_leb (x y : double) : SFltb x y = true -> SFleb x y = true.
Proof.
  unfold SFltb, SFleb. destruct (SFcompare x y) as [[ | | ]|]; congruence.
Qed.

Lemma ltb_notnan (x y : double) :
  SFltb x y = true -> is_nan x = false /\ is_nan y = false.
Proof.
  unfold SFltb. destruct x, y; simpl; try discriminate; auto.
Qed.

Lemma leb_zero_of_not_ltb (x : double) :
  SFltb x (of_int 0) = false -> is_nan x = false -> SFleb (of_int 0) x = true.
Proof.
  destruct x as [s|s| |s m e]; simpl; try discriminate; trivial.
  - destruct s; simpl; trivial; discriminate.
  - destruct s; simpl; trivial; discriminate.
Qed.

Lemma leb_zero_ltb (x y : double) :
  SFleb (of_int 0) x = true -> SFltb x y = true -> SFleb (of_int 0) y = true.
Proof.
  destruct x as [sx|sx| |sx mx ex], y as [sy|sy| |sy my ey];
    try discriminate; try reflexivity;
    destruct sx, sy; try discriminate; try reflexivity.
Qed.

Lemma mul_nan_l (x y : double) :
  is_nan x = true -> is_nan (SFmul prec emax x y) = true.
Proof. destruct x; simpl; try discriminate; reflexivity. Qed.

#[global] Instance ops : Double double := {|
  dadd := SFadd prec emax;
  dsub := SFsub prec emax;
  dmul := SFmul prec emax;
  ddiv := SFdiv prec emax;
  dopp := SFopp;
  dfabs := SFabs;
  dfloor := floor;
  dlt := SFltb;
  dle := SFleb;
  disnan := is_nan;
  dnan := S754_nan;
  of_Z := of_int;
  dlt_zero_zero := eq_refl;
  dle_zero_zero := eq_refl;
  dle_zero_initial := eq_refl;
  disnan_zero := eq_refl;
  disnan_nan := eq_refl;
  dle_of_not_lt := leb_zero_of_not_ltb;
  dlt_dle := ltb_leb;
  dle_zero_dlt := leb_zero_ltb;
  dle_refl := leb_refl;
  dlt_notnan_l := fun x y H => proj1 (ltb_notnan x y H);
  dlt_notnan_r := fun x y H => proj2 (ltb_notnan x y H);
  dmul_nan_l := mul_nan_l
|}.

End B64.

(** The decimal constants of the source, as the compiler reads them (written
    here in hexadecimal so that the primitive float is exact), are the
    quotients [lit] computes. *)
Example lit_1e_12 : Prim2SF 0x1.19799812dea11p-40%float = lit 1 (10 ^ 12).
Proof. vm_compute. reflexivity. Qed.

Example lit_1e_8 : Prim2SF 0x1.5798ee2308c3ap-27%float = lit 1 (10 ^ 8).
Proof. vm_compute. reflexivity. Qed.

Example lit_1e_6 : Prim2SF 0x1.0c6f7a0b5ed8dp-20%float = lit 1 (10 ^ 6).
Proof. vm_compute. reflexivity. Qed.

Example floor_samples :
  B64.floor (Prim2SF 2.5%float) = Prim2SF 2%float /\
  B64.floor (Prim2SF (-2.5)%float) = Prim2SF (-3)%float /\
  B64.floor (Prim2SF 0.5%float) = Prim2SF 0%float /\
  B64.floor (Prim2SF (-0.5)%float) = Prim2SF (-1)%float.
Proof. vm_compute. repeat split; reflexivity. Qed.

(** ** Exact rationals with an undefined value

    No rounding, no infinities.  A division by zero, which in C gives an
    infinity or NaN, gives [Undef]; every division of the kernel is guarded by
    a positivity test on the divisor. *)

Module XQ.

Inductive xq : Type := Fin (q : Q) | Undef.

Definition lift1 (f : Q -> Q) (x : xq) : xq :=
  match x with Fin a => Fin (f a) | Undef => Undef end.

Definition lift2 (f : Q -> Q -> Q) (x y : xq) : xq :=
  match x, y with Fin a, Fin b => Fin (f a b) | _, _ => Undef end.

Definition div (x y : xq) : xq :=
  match x, y with
  | Fin a, Fin b => if Qeq_bool b 0 then Undef else Fin (a / b)
  | _, _ => Undef
  end.

Definition ltb (x y : xq) : bool :=
  match x, y with Fin a, Fin b => negb (Qle_bool b a) | _, _ => false end.

Definition leb (x y : xq) : bool :=
  match x, y with Fin a, Fin b => Qle_bool a b | _, _ => false end.

Definition is_undef (x : xq) : bool :=
  match x with Fin _ => false | Undef => true end.

Definition floor (x : xq) : xq := lift1 (fun a => inject_Z (Qfloor a)) x.

Definition of_int (z : Z) : xq := Fin (inject_Z z).

(** Equality of values: the same rational, or both undefined. *)
Definition xeq (x y : xq) : Prop :=
  match x, y with
  | Fin a, Fin b => a == b
  | Undef, Undef => True
  | _, _ => False
  end.

Lemma ltb_lt (a b : Q) : ltb (Fin a) (Fin b) = true <-> a < b.
Proof.
  simpl. rewrite negb_true_iff, <- not_true_iff_false, Qle_bool_iff.
  split; [apply Qnot_le_lt | apply Qlt_not_le].
Qed.

Lemma ltb_ge (a b : Q) : ltb (Fin a) (Fin b) = false <-> b <= a.
Proof. simpl. rewrite negb_false_iff. apply Qle_bool_iff. Qed.

Lemma leb_le (a b : Q) : leb (Fin a) (Fin b) = true <-> a <= b.
Proof. apply Qle_bool_iff. Qed.

Lemma xleb_zero_of_not_xltb (x : xq) :
  ltb x (of_int 0) = false -> is_undef x = false -> leb (of_int 0) x = true.
Proof.
  destruct x as [a|]; [intros Hlt _ | discriminate].
  apply leb_le. apply ltb_ge in Hlt. exact Hlt.
Qed.

Lemma xltb_xleb (x y : xq) : ltb x y = true -> leb x y = true.
Proof.
  destruct x as [a|], y as [b|]; try discriminate.
  rewrite ltb_lt, leb_le. apply Qlt_le_weak.
Qed.

Lemma xleb_zero_xltb (x y : xq) :
  leb (of_int 0) x = true -> ltb x y = true -> leb (of_int 0) y = true.
Proof.
  destruct x as [a|], y as [b|]; try discriminate.
  unfold of_int. rewrite !leb_le, ltb_lt. intros Ha Hab.
  apply Qle_trans with a; [exact Ha | apply Qlt_le_weak, Hab].
Qed.

Lemma xleb_refl (x : xq) : is_undef x = false -> leb x x = true.
Proof. destruct x as [a|]; [intros _ | discriminate]. apply leb_le, Qle_refl. Qed.

Lemma ltb_defined (x y : xq) :
  ltb x y = true -> is_undef x = false /\ is_undef y = false.
Proof. destruct x, y; simpl; try discriminate; auto. Qed.

Lemma mul_undef_l (x y : xq) :
  is_undef x = true -> is_undef (lift2 Qmult x y) = true.
Proof. destruct x; simpl; [discriminate | reflexivity]. Qed.

#[global] Instance ops : Double xq := {|
  dadd := lift2 Qplus;
  dsub := lift2 Qminus;
  dmul := lift2 Qmult;
  ddiv := div;
  dopp := lift1 Qopp;
  dfabs := lift1 Qabs;
  dfloor := floor;
  dlt := ltb;
  dle := leb;
  disnan := is_undef;
  dnan := Undef;
  of_Z := of_int;
  dlt_zero_zero := eq_refl;
  dle_zero_zero := eq_refl;
  dle_zero_initial := eq_refl;
  disnan_zero := eq_refl;
  disnan_nan := eq_refl;
  dle_of_not_lt := xleb_zero_of_not_xltb;
  dlt_dle := xltb_xleb;
  dle_zero_dlt := xleb_zero_xltb;
  dle_refl := xleb_refl;
  dlt_notnan_l := fun x y H => proj1 (ltb_defined x y H);
  dlt_notnan_r := fun x y H => proj2 (ltb_defined x y H);
  dmul_nan_l := mul_undef_l
|}.

End XQ.

(** ** The kernel *)

Section Kernel.

Context {D : Type} `{Double D}.
Local Open Scope double_scope.

Definition d0 : D := of_Z 0.
Definition d1 : D := of_Z 1.

(** [static inline double maxd(double a,double b){return a>b?a:b;}] *)
Definition maxd (a b : D) : D := if a >? b then a else b.

(** [static inline double clamp_nonneg(double x){return (x<0.0 || isnan(x))?0.0:x;}] *)
Definition clamp_nonneg (x : D) : D :=
  if (x <? d0) || disnan x then d0 else x.

(** *** Moving average *)

(** The second loop of [compute_sma]: [rest] is [x[i..n-1]], [s] the running
    sum on entry to iteration [i]. *)
Fixpoint sma_loop (x : list D) (w : Z) (rest : list D) (i : nat) (s : D)
  : list D :=
  match rest with
  | [] => []
  | xi :: rest' =>
      let s := s + xi in
      let s := if (w <=? Z.of_nat i)%Z
               then s - nth (i - Z.to_nat w) x dnan else s in
      (if (w <=? Z.of_nat i + 1)%Z then s / of_Z w else dnan)
        :: sma_loop x w rest' (S i) s
  end.

Definition compute_sma (x : list D) (w : Z) : list D :=
  if (w <=? 1)%Z then x else sma_loop x w x 0%nat d0.

(** *** Parameters and portfolio state *)

Record Params : Type := {
  fast : Z;
  slow : Z;
  fee_rate : D;
  slip_bps : D;
  tp : D;
  sl : D
}.

Record State : Type := {
  cash : D;
  pos : D;
  entry : D;
  peak : D;
  maxdd : D;
  trades : Z;
  wins : Z
}.

Definition initial_cash : D := of_Z 10000.
Definition eps : D := lit 1 (10 ^ 12).
Definition lot_round : D := lit 1 (10 ^ 8).

Definition init_state : State := {|
  cash := initial_cash;
  pos := d0;
  entry := dnan;
  peak := initial_cash;
  maxdd := d0;
  trades := 0;
  wins := 0
|}.

(** *** Fills *)

(** The sale written three times in the source (TP/SL, signal exit, forced
    liquidation); [won] is the test that guards [wins++]. *)
Definition sell (P : Params) (st : State) (price : D) (won : D -> bool)
  : State :=
  let p_fill := price * (d1 - slip_bps P / of_Z 10000) in
  let proceeds := pos st * p_fill in
  let fee := proceeds * fee_rate P in
  let cash' := cash st + (proceeds - fee) in
  {| cash := clamp_nonneg cash';
     pos := d0;
     entry := dnan;
     peak := peak st;
     maxdd := maxdd st;
     trades := trades st + 1;
     wins := if won p_fill then (wins st + 1)%Z else wins st |}.

(** Lines 82-89 and 118-125: [if(p_fill>entry) wins++]. *)
Definition exit_fill (P : Params) (st : State) (price : D) : State :=
  sell P st price (fun p_fill => p_fill >? entry st).

(** Lines 141-148: [if(!isnan(entry) && p_fill>entry) wins++]. *)
Definition liquidation_fill (P : Params) (st : State) (last : D) : State :=
  sell P st last (fun p_fill => negb (disnan (entry st)) && (p_fill >? entry st)).

(** Lines 99-116. *)
Definition entry_fill (P : Params) (st : State) (price : D) : State :=
  let p_fill := price * (d1 + slip_bps P / of_Z 10000) in
  let denom := p_fill * (d1 + fee_rate P) in
  if denom >? eps then
    let budget := cash st in
    let qty := dfloor ((budget / denom) / lot_round) * lot_round in
    if qty >? d0 then
      let cost := qty * p_fill in
      let fee := cost * fee_rate P in
      let new_cash := budget - (cost + fee) in
      let new_cash :=
        if (new_cash <? d0) && (dfabs new_cash <? lit 1 (10 ^ 6))
        then d0 else new_cash in
      if new_cash >=? - eps then
        {| cash := clamp_nonneg new_cash;
           pos := qty;
           entry := p_fill;
           peak := peak st;
           maxdd := maxdd st;
           trades := trades st;
           wins := wins st |}
      else st
    else st
  else st.

(** *** One candle *)

(** The variable [hit] of lines 74-80 ([0] when the guard of line 74 fails). *)
Definition risk_hit (P : Params) (st : State) (price : D) : bool :=
  if (pos st >? d0) && negb (disnan (entry st)) then
    let pnl := (price - entry st) / entry st in
    if (tp P >? d0) && (pnl >=? tp P) then true
    else if (sl P >? d0) && (pnl <=? - sl P) then true
    else false
  else false.

(** Lines 74-91. *)
Definition risk_phase (P : Params) (st : State) (price : D) : State :=
  if risk_hit P st price then exit_fill P st price else st.

(** Lines 94-96. *)
Definition crossing (f s : list D) (i : nat) (up : bool) : bool :=
  let pf := nth (i - 1) f dnan in
  let ps := nth (i - 1) s dnan in
  let cf := nth i f dnan in
  let cs := nth i s dnan in
  negb (disnan pf) && negb (disnan ps) && negb (disnan cf) && negb (disnan cs)
  && (if up then (pf <=? ps) && (cf >? cs) else (pf >=? ps) && (cf <? cs)).

Definition long_entry (f s : list D) (i : nat) : bool := crossing f s i true.
Definition long_exit (f s : list D) (i : nat) : bool := crossing f s i false.

(** The branch of lines 98-126 that runs. *)
Inductive action : Type := Enter | Exit | Hold.

Definition signal_action (st : State) (l_entry l_exit : bool) : action :=
  if l_entry && (pos st <=? d0) then Enter
  else if l_exit && (pos st >? d0) then Exit
  else Hold.

(** Lines 98-126. *)
Definition signal_phase (P : Params) (st : State) (price : D)
  (l_entry l_exit : bool) : State :=
  match signal_action st l_entry l_exit with
  | Enter => entry_fill P st price
  | Exit => exit_fill P st price
  | Hold => st
  end.

(** Lines 129-134. *)
Definition update_mdd (st : State) (price : D) : State :=
  let equity := cash st + pos st * price in
  let peak' := maxd (peak st) equity in
  let maxdd' :=
    if peak' >? d0 then
      let dd := (peak' - equity) / peak' in
      if dd >? maxdd st then dd else maxdd st
    else maxdd st in
  {| cash := cash st; pos := pos st; entry := entry st;
     peak := peak'; maxdd := maxdd';
     trades := trades st; wins := wins st |}.

(** The body of the loop of lines 69-135 at index [i]. *)
Definition candle (P : Params) (px f s : list D) (st : State) (i : nat)
  : State :=
  let price := nth i px dnan in
  if negb (price >? d0) then st
  else
    let st := risk_phase P st price in
    let st := signal_phase P st price (long_entry f s i) (long_exit f s i) in
    update_mdd st price.

(** [for(npy_intp i=1;i<n;i++)] *)
Definition run_loop (P : Params) (px f s : list D) : State :=
  fold_left (candle P px f s) (seq 1 (length px - 1)) init_state.

(** Lines 138-150. *)
Definition liquidate (P : Params) (px : list D) (st : State) : State :=
  if pos st >? d0 then
    let last := nth (length px - 1) px dnan in
    if last >? d0 then liquidation_fill P st last else st
  else st.

(** *** The entry point *)

(** The defaults of the keyword arguments (lines 27-28). *)
Definition default_params : Params := {|
  fast := 9;
  slow := 21;
  fee_rate := lit 4 10000;
  slip_bps := d1;
  tp := - d1;
  sl := - d1
|}.

(** Lines 36-39. *)
Definition sanitize (a : Params) : Params :=
  let fast' := if (fast a <? 1)%Z then 1%Z else fast a in
  let slow' := if (slow a <? fast')%Z then fast' else slow a in
  let fee := if fee_rate a <? d0 then d0 else fee_rate a in
  let fee := if fee >? lit 5 100 then lit 5 100 else fee in
  let slip := if slip_bps a <? d0 then d0 else slip_bps a in
  let slip := if slip >? of_Z 1000 then of_Z 1000 else slip in
  {| fast := fast'; slow := slow'; fee_rate := fee; slip_bps := slip;
     tp := tp a; sl := sl a |}.

(** The state after the loop, and after the forced liquidation, for
    parameters already sanitized. *)
Definition loop_state (P : Params) (px : list D) : State :=
  run_loop P px (compute_sma px (fast P)) (compute_sma px (slow P)).

Definition final_state (P : Params) (px : list D) : State :=
  liquidate P px (loop_state P px).

Record Result : Type := {
  final_equity : D;
  total_return : D;
  max_drawdown : D;
  n_trades : Z;
  win_rate : D
}.

(** Lines 152-156. *)
Definition report (st : State) : Result :=
  let final_equity := cash st in
  let final_equity :=
    if negb (final_equity >=? d0) then d0 else final_equity in
  {| final_equity := final_equity;
     total_return :=
       if initial_cash >? d0 then final_equity / initial_cash - d1 else d0;
     max_drawdown := maxdd st;
     n_trades := trades st;
     win_rate :=
       if (trades st >? 0)%Z then of_Z (wins st) / of_Z (trades st) else d0 |}.

Inductive error : Type := NotEnoughData.

(** A sum computed in a 32-bit [int], as the compiled extension does it: the
    result wraps around (two's complement) outside
    [-2^31 .. 2^31 - 1]. *)
Definition int_wrap (z : Z) : Z := ((z + 2 ^ 31) mod 2 ^ 32 - 2 ^ 31)%Z.

(** [ma_cross_backtest] on a one-dimensional float64 array; the only failure
    left for such an input is line 46 (allocation is assumed to succeed).
    The test of line 46, [n<(npy_intp)(slow+2)], adds in [int] and widens the
    sum afterwards. *)
Definition ma_cross_backtest (px : list D) (a : Params) : error + Result :=
  let P := sanitize a in
  if (Z.of_nat (length px) <? int_wrap (slow P + 2))%Z then inl NotEnoughData
  else inr (report (final_state P px)).

(** *** Observation points

    The states a run goes through: the initial state, then for each candle
    that is not skipped the state after the TP/SL block, after the signal
    block and after the drawdown update, and last the state after the forced
    liquidation. *)
Definition candle_obs (P : Params) (px f s : list D) (st : State) (i : nat)
  : list State :=
  let price := nth i px dnan in
  if negb (price >? d0) then []
  else
    let st1 := risk_phase P st price in
    let st2 := signal_phase P st1 price (long_entry f s i) (long_exit f s i) in
    [st1; st2; update_mdd st2 price].

Fixpoint loop_obs (P : Params) (px f s : list D) (idx : list nat) (st : State)
  : list State :=
  match idx with
  | [] => []
  | i :: idx' =>
      candle_obs P px f s st i ++ loop_obs P px f s idx' (candle P px f s st i)
  end.

Definition observations (P : Params) (px : list D) : list State :=
  let f := compute_sma px (fast P) in
  let s := compute_sma px (slow P) in
  init_state :: loop_obs P px f s (seq 1 (length px - 1)) init_state
    ++ [final_state P px].

End Kernel.

Arguments Params D : clear implicits.
Arguments State D : clear implicits.
Arguments Result D : clear implicits.

Unset Implicit Arguments.

(** ** Reasoning principles for a run *)

(** Each state of [l], starting from [x], is related to the next one. *)
Fixpoint chain {A : Type} (R : A -> A -> Prop) (x : A) (l : list A) : Prop :=
  match l with
  | [] => True
  | y :: l' => R x y /\ chain R y l'
  end.

Lemma last_cons_default {A : Type} (l : list A) (z x y : A) :
  last (z :: l) x = last (z :: l) y.
Proof.
  revert z. induction l as [|a l IH]; intros z; [reflexivity|].
  change (last (a :: l) x = last (a :: l) y). apply IH.
Qed.

Lemma last_app_default {A : Type} (l1 l2 : list A) (d : A) :
  last (l1 ++ l2) d = last l2 (last l1 d).
Proof.
  revert d. induction l1 as [|a l1 IH]; intros d; [reflexivity|].
  destruct l1 as [|b l1].
  - destruct l2 as [|c l2]; [reflexivity|].
    change (last (c :: l2) d = last (c :: l2) a). apply last_cons_default.
  - change (last ((b :: l1) ++ l2) d = last l2 (last (b :: l1) d)).
    rewrite IH. reflexivity.
Qed.

Lemma chain_app {A : Type} (R : A -> A -> Prop) (l1 l2 : list A) (x : A) :
  chain R x l1 -> chain R (last l1 x) l2 -> chain R x (l1 ++ l2).
Proof.
  revert x. induction l1 as [|y l1 IH]; intros x H1 H2; simpl in *.
  - exact H2.
  - destruct H1 as [Hxy H1]. split; [exact Hxy|].
    apply IH; [exact H1|].
    destruct l1 as [|z l1]; [exact H2|].
    rewrite (last_cons_default l1 z y x). exact H2.
Qed.

Section Run.

Context {D : Type} `{Double D}.
Local Open Scope double_scope.

Variable P : Params D.
Variables px f s : list D.

(** The loop body is the last observation of the candle, or leaves the state
    alone when the candle is skipped. *)
Lemma candle_obs_last (st : State D) (i : nat) :
  candle P px f s st i = last (candle_obs P px f s st i) st.
Proof.
  unfold candle, candle_obs.
  destruct (negb (nth i px dnan >? d0)); reflexivity.
Qed.

Lemma loop_obs_last (idx : list nat) (st : State D) :
  fold_left (candle P px f s) idx st = last (loop_obs P px f s idx st) st.
Proof.
  revert st. induction idx as [|i idx IH]; intros st; simpl; [reflexivity|].
  rewrite IH, last_app_default, candle_obs_last. reflexivity.
Qed.

Section Invariant.

Variable Inv : State D -> Prop.
Hypothesis Inv_risk : forall st price, Inv st -> Inv (risk_phase P st price).
Hypothesis Inv_signal : forall st price le lx,
  Inv st -> Inv (signal_phase P st price le lx).
Hypothesis Inv_mdd : forall st price,
  (price >? d0) = true -> Inv st -> Inv (update_mdd st price).

Lemma candle_obs_inv (st : State D) (i : nat) :
  Inv st -> Forall Inv (candle_obs P px f s st i) /\ Inv (candle P px f s st i).
Proof.
  intros Hst. unfold candle, candle_obs.
  destruct (nth i px dnan >? d0) eqn:Hp; simpl; [|auto].
  pose proof (@Inv_risk st (nth i px dnan) Hst) as H1.
  pose proof (@Inv_signal _ (nth i px dnan) (long_entry f s i) (long_exit f s i)
                H1) as H2.
  pose proof (@Inv_mdd _ _ Hp H2) as H3.
  repeat constructor; assumption.
Qed.

Lemma loop_obs_inv (idx : list nat) (st : State D) :
  Inv st ->
  Forall Inv (loop_obs P px f s idx st)
  /\ Inv (fold_left (candle P px f s) idx st).
Proof.
  revert st. induction idx as [|i idx IH]; intros st Hst; simpl.
  - split; [constructor | exact Hst].
  - destruct (@candle_obs_inv st i Hst) as [Ho Hc].
    destruct (IH _ Hc) as [Ho' Hc'].
    split; [apply Forall_app; split; assumption | exact Hc'].
Qed.

End Invariant.

Section Chain.

Variable Inv : State D -> Prop.
Variable R : State D -> State D -> Prop.
Hypothesis Inv_risk : forall st price,
  Inv st -> Inv (risk_phase P st price) /\ R st (risk_phase P st price).
Hypothesis Inv_signal : forall st price le lx,
  Inv st ->
  Inv (signal_phase P st price le lx) /\ R st (signal_phase P st price le lx).
Hypothesis Inv_mdd : forall st price,
  (price >? d0) = true -> Inv st ->
  Inv (update_mdd st price) /\ R st (update_mdd st price).

Lemma loop_obs_chain (idx : list nat) (st : State D) :
  Inv st ->
  chain R st (loop_obs P px f s idx st)
  /\ Inv (fold_left (candle P px f s) idx st).
Proof.
  revert st. induction idx as [|i idx IH]; intros st Hst; simpl.
  - split; [exact I | exact Hst].
  - assert (Hc : chain R st (candle_obs P px f s st i)
                 /\ Inv (candle P px f s st i)).
    { unfold candle, candle_obs.
      destruct (nth i px dnan >? d0) eqn:Hp; simpl; [|auto].
      destruct (@Inv_risk st (nth i px dnan) Hst) as [H1 R1].
      destruct (@Inv_signal _ (nth i px dnan) (long_entry f s i)
                  (long_exit f s i) H1) as [H2 R2].
      destruct (@Inv_mdd _ _ Hp H2) as [H3 R3].
      auto. }
    destruct Hc as [Hc Hi]. destruct (IH _ Hi) as [Hc' Hi'].
    split; [|exact Hi'].
    apply chain_app; [exact Hc|].
    rewrite <- candle_obs_last. exact Hc'.
Qed.

End Chain.

End Run.

(** ** Properties that hold in every arithmetic *)

Section Facts.

Context {D : Type} `{Double D}.
Local Open Scope double_scope.

Lemma clamp_nonneg_nonneg (x : D) : (d0 <=? clamp_nonneg x) = true.
Proof.
  unfold clamp_nonneg.
  destruct (x <? d0) eqn:Hlt; simpl; [apply dle_zero_zero|].
  destruct (disnan x) eqn:Hnan; [apply dle_zero_zero|].
  apply dle_of_not_lt; assumption.
Qed.

(** *** What a sale does *)

Lemma sell_cash (P : Params D) (st : State D) (price : D) (won : D -> bool) :
  (d0 <=? cash (sell P st price won)) = true.
Proof. apply clamp_nonneg_nonneg. Qed.

(** *** What an entry does *)

(** The quantities [entry_fill] computes, by name: fill price, [denom],
    [qty], and [new_cash] as line 108 leaves it. *)
Definition entry_p_fill (P : Params D) (price : D) : D :=
  price * (d1 + slip_bps P / of_Z 10000).

Definition entry_denom (P : Params D) (price : D) : D :=
  entry_p_fill P price * (d1 + fee_rate P).

Definition entry_qty (P : Params D) (st : State D) (price : D) : D :=
  dfloor ((cash st / entry_denom P price) / lot_round) * lot_round.

Definition entry_new_cash (P : Params D) (st : State D) (price : D) : D :=
  let cost := entry_qty P st price * entry_p_fill P price in
  cash st - (cost + cost * fee_rate P).

(** Line 109: a negative residue above [-1e-6] is reset to zero. *)
Definition settle (x : D) : D :=
  if (x <? d0) && (dfabs x <? lit 1 (10 ^ 6)) then d0 else x.

(** The three tests of lines 101, 105 and 110, in the order of the source. *)
Definition entry_executes (P : Params D) (st : State D) (price : D) : bool :=
  (entry_denom P price >? eps)
  && (entry_qty P st price >? d0)
  && (settle (entry_new_cash P st price) >=? - eps).

(** The state an executed entry leaves (lines 111-113). *)
Definition entered (P : Params D) (st : State D) (price : D) : State D :=
  {| cash := clamp_nonneg (settle (entry_new_cash P st price));
     pos := entry_qty P st price;
     entry := entry_p_fill P price;
     peak := peak st;
     maxdd := maxdd st;
     trades := trades st;
     wins := wins st |}.

Lemma entry_fill_cases (P : Params D) (st : State D) (price : D) :
  entry_fill P st price =
  if entry_executes P st price then entered P st price else st.
Proof.
  unfold entry_fill, entry_executes, entered, settle, entry_new_cash,
    entry_qty, entry_denom, entry_p_fill.
  destruct (_ >? eps); simpl; [|reflexivity].
  destruct (_ >? d0); simpl; [|reflexivity].
  destruct (_ >=? - eps); reflexivity.
Qed.

Lemma entry_executes_defined (P : Params D) (st : State D) (price : D) :
  entry_executes P st price = true ->
  (entry_qty P st price >? d0) = true
  /\ disnan (entry_p_fill P price) = false.
Proof.
  unfold entry_executes. rewrite !andb_true_iff. intros [[Hd Hq] _].
  split; [exact Hq|].
  apply dlt_notnan_r in Hd. unfold entry_denom in Hd.
  destruct (disnan (entry_p_fill P price)) eqn:Hn; [|reflexivity].
  rewrite (dmul_nan_l _ (d1 + fee_rate P) Hn) in Hd. discriminate.
Qed.

(** *** The phases of a candle, case by case *)

Lemma risk_phase_cases (P : Params D) (st : State D) (price : D) :
  risk_phase P st price = st
  \/ risk_phase P st price = sell P st price (fun p => p >? entry st).
Proof. unfold risk_phase. destruct (risk_hit P st price); auto. Qed.

Lemma signal_phase_cases (P : Params D) (st : State D) (price : D)
  (le lx : bool) :
  signal_phase P st price le lx = st
  \/ (entry_executes P st price = true
      /\ signal_phase P st price le lx = entered P st price)
  \/ signal_phase P st price le lx = sell P st price (fun p => p >? entry st).
Proof.
  unfold signal_phase. destruct (signal_action st le lx).
  - rewrite entry_fill_cases.
    destruct (entry_executes P st price); auto.
  - right. right. reflexivity.
  - left. reflexivity.
Qed.

Lemma liquidate_cases (P : Params D) (px : list D) (st : State D) :
  liquidate P px st = st
  \/ exists won, liquidate P px st = sell P st (nth (length px - 1) px dnan) won.
Proof.
  unfold liquidate, liquidation_fill.
  destruct (pos st >? d0); [|auto].
  destruct (_ >? d0); [right; eexists; reflexivity | auto].
Qed.

End Facts.

(** ** Invariants of a run *)

Section Invariants.

Context {D : Type} `{Double D}.
Local Open Scope double_scope.

Variable P : Params D.
Variable px : list D.

(** An invariant of the initial state that every sale, every executed entry
    and every drawdown update keep holds at every observation point. *)
Lemma observations_inv (Inv : State D -> Prop) :
  Inv init_state ->
  (forall st price won, Inv st -> Inv (sell P st price won)) ->
  (forall st price,
     Inv st -> entry_executes P st price = true -> Inv (entered P st price)) ->
  (forall st price,
     (price >? d0) = true -> Inv st -> Inv (update_mdd st price)) ->
  Forall Inv (observations P px).
Proof.
  intros Hinit Hsell Henter Hmdd.
  assert (Hrisk : forall st price, Inv st -> Inv (risk_phase P st price)).
  { intros st price Hst.
    destruct (risk_phase_cases P st price) as [-> | ->]; auto. }
  assert (Hsig : forall st price le lx,
             Inv st -> Inv (signal_phase P st price le lx)).
  { intros st price le lx Hst.
    destruct (signal_phase_cases P st price le lx) as [-> | [[He ->] | ->]];
      auto. }
  unfold observations.
  destruct (loop_obs_inv P px (compute_sma px (fast P))
              (compute_sma px (slow P)) Inv Hrisk Hsig Hmdd
              (seq 1 (length px - 1)) init_state Hinit) as [Hobs Hloop].
  constructor; [exact Hinit|].
  apply Forall_app. split; [exact Hobs|].
  constructor; [|constructor].
  unfold final_state, loop_state, run_loop.
  destruct (liquidate_cases P px
              (fold_left (candle P px (compute_sma px (fast P))
                            (compute_sma px (slow P)))
                 (seq 1 (length px - 1)) init_state)) as [-> | [won ->]];
    auto.
Qed.

(** The same for a relation between each observation and the next. *)
Lemma observations_chain (Inv : State D -> Prop) (R : State D -> State D -> Prop) :
  Inv init_state ->
  (forall st, Inv st -> R st st) ->
  (forall st price won,
     Inv st -> Inv (sell P st price won) /\ R st (sell P st price won)) ->
  (forall st price,
     Inv st -> entry_executes P st price = true ->
     Inv (entered P st price) /\ R st (entered P st price)) ->
  (forall st price,
     (price >? d0) = true -> Inv st ->
     Inv (update_mdd st price) /\ R st (update_mdd st price)) ->
  chain R init_state (tl (observations P px)).
Proof.
  intros Hinit Hrefl Hsell Henter Hmdd.
  assert (Hrisk : forall st price, Inv st ->
             Inv (risk_phase P st price) /\ R st (risk_phase P st price)).
  { intros st price Hst.
    destruct (risk_phase_cases P st price) as [-> | ->]; auto. }
  assert (Hsig : forall st price le lx, Inv st ->
             Inv (signal_phase P st price le lx)
             /\ R st (signal_phase P st price le lx)).
  { intros st price le lx Hst.
    destruct (signal_phase_cases P st price le lx) as [-> | [[He ->] | ->]];
      auto. }
  unfold observations. simpl tl.
  destruct (loop_obs_chain P px (compute_sma px (fast P))
              (compute_sma px (slow P)) Inv R Hrisk Hsig Hmdd
              (seq 1 (length px - 1)) init_state Hinit) as [Hobs Hloop].
  apply chain_app; [exact Hobs|].
  rewrite <- loop_obs_last. simpl. split; [|exact I].
  unfold final_state, loop_state, run_loop.
  destruct (liquidate_cases P px
              (fold_left (candle P px (compute_sma px (fast P))
                            (compute_sma px (slow P)))
                 (seq 1 (length px - 1)) init_state)) as [-> | [won ->]].
  - apply Hrefl, Hloop.
  - apply Hsell, Hloop.
Qed.

(** Cash is non-negative. *)
Definition cash_ok (st : State D) : Prop := (d0 <=? cash st) = true.

(** The position is positive exactly when the entry price is defined. *)
Definition pos_entry_ok (st : State D) : Prop :=
  (pos st >? d0) = true <-> disnan (entry st) = false.

(** The position is not negative. *)
Definition pos_ok (st : State D) : Prop := (d0 <=? pos st) = true.

Lemma cash_ok_run : Forall cash_ok (observations P px).
Proof.
  apply observations_inv.
  - apply dle_zero_initial.
  - intros st price won _. apply sell_cash.
  - intros st price _ _. apply clamp_nonneg_nonneg.
  - intros st price _ Hst. exact Hst.
Qed.

Lemma pos_ok_run : Forall pos_ok (observations P px).
Proof.
  apply observations_inv.
  - apply dle_zero_zero.
  - intros st price won _. apply dle_zero_zero.
  - intros st price _ He.
    apply entry_executes_defined in He. apply dlt_dle, He.
  - intros st price _ Hst. exact Hst.
Qed.

Lemma flat_pos_entry_ok (st : State D) :
  pos st = d0 -> entry st = dnan -> pos_entry_ok st.
Proof.
  intros Hp He. unfold pos_entry_ok. rewrite Hp, He. unfold d0.
  rewrite dlt_zero_zero, disnan_nan. split; discriminate.
Qed.

Lemma pos_entry_ok_run : Forall pos_entry_ok (observations P px).
Proof.
  apply observations_inv.
  - apply flat_pos_entry_ok; reflexivity.
  - intros st price won _. apply flat_pos_entry_ok; reflexivity.
  - intros st price _ He.
    apply entry_executes_defined in He. destruct He as [Hq Hn].
    unfold pos_entry_ok. simpl. tauto.
  - intros st price _ Hst. exact Hst.
Qed.

(** The drawdown only grows, and is never NaN. *)
Definition mdd_defined (st : State D) : Prop := disnan (maxdd st) = false.

Definition mdd_le (st st' : State D) : Prop :=
  (maxdd st <=? maxdd st') = true.

Lemma update_mdd_grows (st : State D) (price : D) :
  mdd_defined st ->
  mdd_defined (update_mdd st price) /\ mdd_le st (update_mdd st price).
Proof.
  intros Hst. unfold mdd_defined, mdd_le, update_mdd. simpl.
  destruct (_ >? d0); [|split; [exact Hst | apply dle_refl, Hst]].
  match goal with |- context [?dd >? maxdd st] =>
    destruct (dd >? maxdd st) eqn:Hdd end.
  - split; [apply (dlt_notnan_r _ _ Hdd) | apply dlt_dle, Hdd].
  - split; [exact Hst | apply dle_refl, Hst].
Qed.

Definition mdd_nonneg (st : State D) : Prop := (d0 <=? maxdd st) = true.

Lemma mdd_nonneg_run : Forall mdd_nonneg (observations P px).
Proof.
  apply observations_inv.
  - apply dle_zero_zero.
  - intros st price won Hst. exact Hst.
  - intros st price Hst _. exact Hst.
  - intros st price _ Hst. unfold mdd_nonneg, update_mdd. simpl.
    destruct (_ >? d0); [|exact Hst].
    match goal with |- context [?dd >? maxdd st] =>
      destruct (dd >? maxdd st) eqn:Hdd end; [|exact Hst].
    apply (dle_zero_dlt _ _ Hst Hdd).
Qed.

Lemma mdd_monotone_run : chain mdd_le init_state (tl (observations P px)).
Proof.
  apply observations_chain with (Inv := mdd_defined).
  - apply disnan_zero.
  - intros st Hst. apply dle_refl, Hst.
  - intros st price won Hst. split; [exact Hst | apply dle_refl, Hst].
  - intros st price Hst _. split; [exact Hst | apply dle_refl, Hst].
  - intros st price _ Hst. apply update_mdd_grows, Hst.
Qed.

End Invariants.

(** ** Shape of the moving average *)

Section Shape.

Context {D : Type} `{Double D}.

Lemma sma_loop_length (x : list D) (w : Z) (rest : list D) (i : nat) (s : D) :
  length (sma_loop x w rest i s) = length rest.
Proof.
  revert i s. induction rest as [|xi rest IH]; intros i s; [reflexivity|].
  simpl. rewrite IH. reflexivity.
Qed.

Lemma sma_loop_undefined (x : list D) (w : Z) (rest : list D) (i : nat) (s : D)
  (j : nat) :
  (Z.of_nat (i + j) + 1 < w)%Z ->
  nth j (sma_loop x w rest i s) dnan = dnan.
Proof.
  revert i s j. induction rest as [|xi rest IH]; intros i s j Hj.
  - destruct j; reflexivity.
  - destruct j as [|j]; cbn [sma_loop nth].
    + destruct (Z.leb_spec w (Z.of_nat i + 1)); [lia | reflexivity].
    + apply IH. lia.
Qed.

Lemma compute_sma_length (x : list D) (w : Z) :
  length (compute_sma x w) = length x.
Proof.
  unfold compute_sma. destruct (w <=? 1)%Z; [reflexivity|].
  apply sma_loop_length.
Qed.

Lemma compute_sma_undefined (x : list D) (w : Z) (i : nat) :
  (Z.of_nat i + 1 < w)%Z -> nth i (compute_sma x w) dnan = dnan.
Proof.
  intros Hi. unfold compute_sma.
  destruct (Z.leb_spec w 1); [lia|].
  apply sma_loop_undefined. simpl. exact Hi.
Qed.

Lemma compute_sma_identity (x : list D) (w : Z) :
  (w <= 1)%Z -> compute_sma x w = x.
Proof.
  intros Hw. unfold compute_sma.
  destruct (Z.leb_spec w 1); [reflexivity | lia].
Qed.

End Shape.

(** ** Signals, priority of the risk exit, forced liquidation *)

Section Phases.

Context {D : Type} `{Double D}.
Local Open Scope double_scope.

Lemma crossing_spec (f s : list D) (k : nat) (up : bool) :
  crossing f s (S k) up = true <->
  (disnan (nth k f dnan) = false /\ disnan (nth k s dnan) = false
   /\ disnan (nth (S k) f dnan) = false /\ disnan (nth (S k) s dnan) = false)
  /\ (if up
      then (nth k f dnan <=? nth k s dnan) && (nth (S k) f dnan >? nth (S k) s dnan)
      else (nth k f dnan >=? nth k s dnan) && (nth (S k) f dnan <? nth (S k) s dnan))
     = true.
Proof.
  unfold crossing. replace (S k - 1)%nat with k by lia.
  rewrite !andb_true_iff, !negb_true_iff. tauto.
Qed.

Lemma exit_fill_flat_action (P : Params D) (st : State D) (price : D)
  (le lx : bool) :
  signal_action (exit_fill P st price) le lx <> Exit.
Proof.
  unfold signal_action. simpl. unfold d0. rewrite dlt_zero_zero.
  rewrite andb_false_r. destruct (le && _); discriminate.
Qed.

Lemma signal_phase_trades (P : Params D) (st : State D) (price : D)
  (le lx : bool) :
  signal_action st le lx <> Exit ->
  trades (signal_phase P st price le lx) = trades st.
Proof.
  unfold signal_phase. destruct (signal_action st le lx); intros Hne.
  - rewrite entry_fill_cases. destruct (entry_executes P st price); reflexivity.
  - congruence.
  - reflexivity.
Qed.

(** The forced liquidation leaves the high-water mark and the drawdown alone. *)
Lemma liquidate_frame (P : Params D) (px : list D) (st : State D) :
  peak (liquidate P px st) = peak st /\ maxdd (liquidate P px st) = maxdd st.
Proof.
  destruct (liquidate_cases P px st) as [-> | [won ->]]; split; reflexivity.
Qed.

(** When the last price is positive the run ends flat. *)
Lemma final_state_flat (P : Params D) (px : list D) :
  (nth (length px - 1) px dnan >? d0) = true ->
  (pos (final_state P px) >? d0) = false.
Proof.
  intros Hlast. unfold final_state, liquidate.
  destruct (pos (loop_state P px) >? d0) eqn:Hpos; [|exact Hpos].
  rewrite Hlast. simpl. unfold d0. apply dlt_zero_zero.
Qed.

(** The report reads the cash of the final state, and is produced for every
    series of at least [slow + 2] prices. *)
Lemma report_final_equity (st : State D) :
  (d0 <=? cash st) = true -> final_equity (report st) = cash st.
Proof. intros Hc. unfold report. simpl. rewrite Hc. reflexivity. Qed.

Lemma int_wrap_small (z : Z) :
  (- 2 ^ 31 <= z < 2 ^ 31)%Z -> int_wrap z = z.
Proof.
  intros Hz. unfold int_wrap. rewrite Z.mod_small; lia.
Qed.

Lemma int_wrap_le (z : Z) : (- 2 ^ 31 <= z)%Z -> (int_wrap z <= z)%Z.
Proof.
  intros Hz. unfold int_wrap.
  pose proof (Z.mod_le (z + 2 ^ 31) (2 ^ 32)). lia.
Qed.

Lemma int_wrap_overflow (z : Z) :
  (2 ^ 31 <= z < 2 ^ 31 + 2)%Z -> (int_wrap z < 0)%Z.
Proof.
  intros Hz. unfold int_wrap.
  replace (z + 2 ^ 31)%Z with ((z - 2 ^ 31) + 1 * 2 ^ 32)%Z by lia.
  rewrite Z.mod_add by lia. rewrite Z.mod_small; lia.
Qed.

Lemma sanitize_slow_positive (a : Params D) : (1 <= slow (sanitize a))%Z.
Proof.
  unfold sanitize. cbn [slow].
  destruct (Z.ltb_spec (fast a) 1).
  - destruct (Z.ltb_spec (slow a) 1); lia.
  - destruct (Z.ltb_spec (slow a) (fast a)); lia.
Qed.

Lemma ma_cross_backtest_returns (px : list D) (a : Params D) :
  (slow (sanitize a) + 2 <= Z.of_nat (length px))%Z ->
  ma_cross_backtest px a = inr (report (final_state (sanitize a) px)).
Proof.
  intros Hn. unfold ma_cross_backtest.
  pose proof (sanitize_slow_positive a) as Hs.
  pose proof (int_wrap_le (slow (sanitize a) + 2)) as Hw.
  destruct (Z.ltb_spec (Z.of_nat (length px))
              (int_wrap (slow (sanitize a) + 2)));
    [lia | reflexivity].
Qed.

Lemma ma_cross_backtest_rejects (px : list D) (a : Params D) :
  (slow (sanitize a) + 2 < 2 ^ 31)%Z ->
  (Z.of_nat (length px) < slow (sanitize a) + 2)%Z ->
  ma_cross_backtest px a = inl NotEnoughData.
Proof.
  intros Hi Hn. unfold ma_cross_backtest.
  pose proof (sanitize_slow_positive a) as Hs.
  rewrite int_wrap_small by lia.
  destruct (Z.ltb_spec (Z.of_nat (length px)) (slow (sanitize a) + 2));
    [reflexivity | lia].
Qed.

Lemma reported_equity_is_final_cash (px : list D) (a : Params D) :
  (slow (sanitize a) + 2 <= Z.of_nat (length px))%Z ->
  exists r, ma_cross_backtest px a = inr r
            /\ final_equity r = cash (final_state (sanitize a) px)
            /\ (d0 <=? final_equity r) = true.
Proof.
  intros Hn. exists (report (final_state (sanitize a) px)).
  assert (Hc : (d0 <=? cash (final_state (sanitize a) px)) = true).
  { pose proof (cash_ok_run (sanitize a) px) as Hall.
    rewrite Forall_forall in Hall. apply Hall.
    unfold observations. right. apply in_or_app. right. left. reflexivity. }
  split; [apply ma_cross_backtest_returns, Hn|].
  rewrite (report_final_equity _ Hc). split; [reflexivity | exact Hc].
Qed.

End Phases.

(** ** Runs on IEEE doubles *)

Definition dz (z : Z) : B64.double := B64.of_int z.

Definition mk_params (fast slow : Z) (fee_rate slip_bps tp sl : B64.double)
  : Params B64.double :=
  {| fast := fast; slow := slow; fee_rate := fee_rate; slip_bps := slip_bps;
     tp := tp; sl := sl |}.

(** Windows 1 and 2, no fee, no slippage, no take-profit, no stop-loss. *)
Definition plain_params : Params B64.double :=
  mk_params 1 2 (dz 0) (dz 0) (dz (-1)) (dz (-1)).

(** The fast average crosses above the slow one at index 3, and the last
    candle has no usable price. *)
Definition prices_zero_last : list B64.double := map dz [10; 9; 8; 12; 0]%Z.

Definition prices_nan_last : list B64.double :=
  map dz [10; 9; 8; 12]%Z ++ [S754_nan].

Example sma_zero_last :
  compute_sma prices_zero_last 2
  = [S754_nan; lit 19 2; lit 17 2; dz 10; dz 6].
Proof. vm_compute. reflexivity. Qed.

(** The entry fill as the specification words it: skipped when the quantity is
    zero or the cash after cost and fee is below [-1e-12], executed
    otherwise. *)
Definition entry_fill_as_specified {D : Type} `{Double D}
  (P : Params D) (st : State D) (price : D) : Prop :=
  let qty := entry_qty P st price in
  let new_cash := entry_new_cash P st price in
  let st' := entry_fill P st price in
  if ((qty <=? d0) && (d0 <=? qty) || (new_cash <? - eps))%D
  then cash st' = cash st /\ pos st' = pos st /\ entry st' = entry st
  else pos st' = qty /\ entry st' = entry_p_fill P price.

(** A price of [2^-40], about [9.1e-13], as a double and as a rational. *)
Definition tiny_price : B64.double := lit 1 (2 ^ 40).
Definition tiny_price_exact : XQ.xq := lit 1 (2 ^ 40).

(** No fee, no slippage, in exact arithmetic. *)
Definition plain_params_exact : Params XQ.xq :=
  {| fast := 1; slow := 2; fee_rate := d0; slip_bps := d0;
     tp := (- d1)%D; sl := (- d1)%D |}.

(** A divergence by rounding: at the price 0.00081 the cash left is
    computed as [-2^-39], about [-1.8e-12], which is below [-1e-12]; line 109
    resets it to zero and the entry executes. *)
Example entry_executes_on_negative_residue :
  let price := lit 81 100000 in
  (entry_new_cash plain_params init_state price <? - eps)%D = true
  /\ entry_executes plain_params init_state price = true
  /\ cash (entry_fill plain_params init_state price) = d0
  /\ ~ entry_fill_as_specified plain_params init_state price.
Proof.
  repeat split; try (vm_compute; reflexivity).
  intros Hc. vm_compute in Hc. destruct Hc as [_ [Hc _]]. discriminate Hc.
Qed.

(** The invariants of a run, spelled out on doubles: at every observation
    point cash and position are not negative, the position is positive
    exactly when the entry price is not NaN, and the drawdown is not
    negative. *)
Lemma binary64_invariants (P : Params B64.double) (px : list B64.double) :
  Forall (fun st =>
            SFleb (S754_zero false) (cash st) = true
            /\ SFleb (S754_zero false) (pos st) = true
            /\ (SFltb (S754_zero false) (pos st) = true
                <-> B64.is_nan (entry st) = false)
            /\ SFleb (S754_zero false) (maxdd st) = true)
    (observations P px).
Proof.
  pose proof (cash_ok_run P px) as Hc.
  pose proof (pos_ok_run P px) as Hq.
  pose proof (pos_entry_ok_run P px) as He.
  pose proof (mdd_nonneg_run P px) as Hm.
  rewrite Forall_forall in *. intros st Hst.
  split; [exact (Hc st Hst)|]. split; [exact (Hq st Hst)|].
  split; [exact (He st Hst) | exact (Hm st Hst)].
Qed.

(** On doubles the running sum of [compute_sma] rounds at every step, so an
    entry need not be the mean of its window: after the price [2^53] the sum
    absorbs the two prices 1 that follow, and entry 2 of the window-2 average
    is 0 although its window is (1, 1). *)
Example sma_binary64_rounding :
  compute_sma (map dz [2 ^ 53; 1; 1]%Z) 2 = [S754_nan; dz (2 ^ 52); dz 0].
Proof. vm_compute. reflexivity. Qed.

(** On doubles a round trip at no cost returns the cash exactly at the price
    12; at the price 0.00081, where the residue was reset to zero, it returns
    one unit in the last place more than the 10000 it started from. *)
Example round_trip_binary64 :
  cash (exit_fill plain_params (entry_fill plain_params init_state (dz 12))
          (dz 12)) = dz 10000
  /\ (cash (exit_fill plain_params
              (entry_fill plain_params init_state (lit 81 100000))
              (lit 81 100000)) >? dz 10000)%D = true.
Proof. vm_compute. split; reflexivity. Qed.

(** Windows 1 and 2 and a fee of 1%. *)
Definition fee_params : Params B64.double :=
  mk_params 1 2 (lit 1 100) (dz 0) (dz (-1)) (dz (-1)).

(** An entry at index 3, held until the end of the series. *)
Definition prices_held : list B64.double := map dz [10; 9; 8; 12; 12]%Z.

(** A long position entered at 10, a take-profit of 2%, and a candle at 11 on
    which the averages also cross downwards. *)
Definition tp_params : Params B64.double :=
  mk_params 1 2 (dz 0) (dz 0) (lit 2 100) (dz (-1)).

Definition long_at_10 : State B64.double :=
  {| cash := dz 0; pos := dz 1; entry := dz 10; peak := dz 10000;
     maxdd := dz 0; trades := 0; wins := 0 |}.

Definition prices_tp : list B64.double := map dz [10; 11]%Z.
Definition fast_down : list B64.double := map dz [10; 9]%Z.
Definition slow_down : list B64.double := map dz [10; 10]%Z.

(** * The statements *)

(** ** In every arithmetic *)

Section Statements.

Context {D : Type} `{Double D}.
Local Open Scope double_scope.

(** C2, as amended.  An entry fill executes exactly when the three tests of
    the source pass: fill price times [1 + fee_rate] is above [1e-12], the
    quantity is above zero, and the cash left after cost and fee, once a
    negative residue above [-1e-6] has been reset to zero, is at least
    [-1e-12].  It then sets cash to that amount (clamped), the position to
    the quantity and the entry price to the fill price; otherwise the state
    is unchanged. *)
Theorem C2_entry_fill_tests (P : Params D) (st : State D) (price : D) :
  (entry_executes P st price = true
   /\ entry_fill P st price = entered P st price)
  \/ (entry_executes P st price = false /\ entry_fill P st price = st).
Proof.
  rewrite entry_fill_cases.
  destruct (entry_executes P st price); [left | right]; split; reflexivity.
Qed.

(** C4.  At candle index [i = k+1 >= 1], with [pf = fast[i-1]],
    [ps = slow[i-1]], [cf = fast[i]], [cs = slow[i]]: the long-entry signal
    is set exactly when the four values are defined, [pf <= ps] and
    [cf > cs]; the long-exit signal exactly when the four are defined,
    [pf >= ps] and [cf < cs]; when one of the four is undefined neither
    signal is set. *)
Theorem C4_signal_detection (f s : list D) (k : nat) :
  let pf := nth k f dnan in
  let ps := nth k s dnan in
  let cf := nth (S k) f dnan in
  let cs := nth (S k) s dnan in
  let defined := disnan pf = false /\ disnan ps = false
                 /\ disnan cf = false /\ disnan cs = false in
  (long_entry f s (S k) = true <->
     defined /\ (pf <=? ps) = true /\ (cf >? cs) = true)
  /\ (long_exit f s (S k) = true <->
        defined /\ (pf >=? ps) = true /\ (cf <? cs) = true)
  /\ (~ defined ->
      long_entry f s (S k) = false /\ long_exit f s (S k) = false).
Proof.
  intros pf ps cf cs defined.
  pose proof (crossing_spec f s k true) as He.
  pose proof (crossing_spec f s k false) as Hx.
  fold pf ps cf cs in He, Hx. fold defined in He, Hx.
  rewrite andb_true_iff in He, Hx.
  unfold long_entry, long_exit.
  split; [exact He|]. split; [exact Hx|].
  intros Hn. split; apply not_true_is_false; intros Hc.
  - apply He in Hc. tauto.
  - apply Hx in Hc. tauto.
Qed.

(** C5.  On a candle that is not skipped, the TP/SL block runs first and the
    signal block runs on the state it leaves.  When the TP/SL test hits, that
    state is flat, so the signal block never takes its exit branch, whatever
    the signals are: exactly one sale is counted for the candle. *)
Theorem C5_risk_exit_priority (P : Params D) (px f s : list D)
  (st : State D) (i : nat) :
  let price := nth i px dnan in
  let st1 := risk_phase P st price in
  (price >? d0) = true ->
  risk_hit P st price = true ->
  candle P px f s st i
    = update_mdd (signal_phase P st1 price (long_entry f s i) (long_exit f s i))
        price
  /\ st1 = exit_fill P st price
  /\ signal_action st1 (long_entry f s i) (long_exit f s i) <> Exit
  /\ trades (candle P px f s st i) = (trades st + 1)%Z.
Proof.
  intros price st1 Hp Hhit.
  assert (Hst1 : st1 = exit_fill P st price).
  { unfold st1, risk_phase. rewrite Hhit. reflexivity. }
  assert (Hact : signal_action st1 (long_entry f s i) (long_exit f s i) <> Exit).
  { rewrite Hst1. apply exit_fill_flat_action. }
  assert (Hc : candle P px f s st i
               = update_mdd (signal_phase P st1 price (long_entry f s i)
                               (long_exit f s i)) price).
  { unfold candle. fold price. rewrite Hp. reflexivity. }
  repeat split; try assumption.
  rewrite Hc. simpl trades.
  rewrite (signal_phase_trades P st1 price _ _ Hact), Hst1. reflexivity.
Qed.

(** C6.  Cash is non-negative at every observation point of a run: in the
    initial state, after the TP/SL block, after the signal block (entry or
    exit), after the drawdown update, and after the forced liquidation, for
    every input, sanitized or not.  Every fill stores [clamp_nonneg] of the
    new balance, which is zero for a negative or NaN balance and the balance
    itself otherwise. *)
Theorem C6_cash_nonnegative (P : Params D) (px : list D) :
  Forall (fun st => (d0 <=? cash st) = true) (observations P px)
  /\ (forall x,
        (d0 <=? clamp_nonneg x) = true
        /\ (clamp_nonneg x = d0
            \/ (clamp_nonneg x = x /\ (x <? d0) = false /\ disnan x = false))).
Proof.
  split; [exact (cash_ok_run P px)|].
  intros x. split; [apply clamp_nonneg_nonneg|].
  unfold clamp_nonneg.
  destruct (x <? d0); simpl; [left; reflexivity|].
  destruct (disnan x); [left; reflexivity | right; auto].
Qed.

(** C8.  At every observation point the position is positive exactly when
    the entry price is defined.  An entry fill either leaves the state
    alone or leaves a positive position with a defined entry price; every
    sale (TP/SL, signal exit, forced liquidation) resets the position to zero
    and the entry price to NaN together. *)
Theorem C8_position_iff_entry_defined (P : Params D) (px : list D) :
  Forall (fun st => (pos st >? d0) = true <-> disnan (entry st) = false)
    (observations P px)
  /\ (forall st price,
        entry_fill P st price = st
        \/ ((pos (entry_fill P st price) >? d0) = true
            /\ disnan (entry (entry_fill P st price)) = false))
  /\ (forall st price,
        pos (exit_fill P st price) = d0
        /\ entry (exit_fill P st price) = dnan
        /\ pos (liquidation_fill P st price) = d0
        /\ entry (liquidation_fill P st price) = dnan).
Proof.
  split; [exact (pos_entry_ok_run P px)|]. split.
  - intros st price. rewrite entry_fill_cases.
    destruct (entry_executes P st price) eqn:He; [right | left; reflexivity].
    apply entry_executes_defined in He. exact He.
  - intros st price. repeat split; reflexivity.
Qed.

End Statements.

(** On the prices 10, 9, 8, 12, 12 with windows 1 and 2 the entry signal is set
    at index 3 and not at index 1 (the slow average is undefined at index 0);
    on [fast_down], [slow_down] the exit signal is set at index 1. *)
Lemma C4_witness :
  long_entry (compute_sma prices_held 1) (compute_sma prices_held 2) 3 = true
  /\ long_exit fast_down slow_down 1 = true
  /\ long_entry (compute_sma prices_held 1) (compute_sma prices_held 2) 1 = false.
Proof.
  split; [|split].
  - apply (proj1 (C4_signal_detection
                    (compute_sma prices_held 1) (compute_sma prices_held 2) 2)).
    vm_compute. repeat split; reflexivity.
  - apply (proj1 (proj2 (C4_signal_detection fast_down slow_down 0))).
    vm_compute. repeat split; reflexivity.
  - apply (proj2 (proj2 (C4_signal_detection
                    (compute_sma prices_held 1) (compute_sma prices_held 2) 0))).
    vm_compute. intros [_ [Hs _]]. discriminate Hs.
Defined.

(** A position entered at 10 with a take-profit of 2%, on a candle at 11 that
    also carries an exit signal: one sale is counted. *)
Lemma C5_witness :
  long_exit fast_down slow_down 1 = true
  /\ risk_hit tp_params long_at_10 (dz 11) = true
  /\ trades (candle tp_params prices_tp fast_down slow_down long_at_10 1) = 1%Z.
Proof.
  split; [vm_compute; reflexivity|].
  split; [vm_compute; reflexivity|].
  refine (proj2 (proj2 (proj2
    (C5_risk_exit_priority tp_params prices_tp fast_down slow_down
       long_at_10 1 _ _)))); vm_compute; reflexivity.
Defined.

(** ** On IEEE doubles *)

(** C1.  On the prices 10, 9, 8, 12, 0 (windows 1 and 2, no costs) the entry
    at index 3 buys 833.3333333300001 units and leaves 3.9999576983973384e-08
    in cash, the last candle is skipped, and the forced liquidation is skipped
    as well: the position is still open when [final_equity] is read, and the
    reported equity is the cash left alone, for a total return of
    -0.9999999999960001 and no trade counted.  The same happens when the last
    price is NaN. *)
Theorem C1_position_open_at_report :
  let st := final_state (sanitize plain_params) prices_zero_last in
  let st' := final_state (sanitize plain_params) prices_nan_last in
  ma_cross_backtest prices_zero_last plain_params = inr (report st)
  /\ (pos st >? d0)%D = true
  /\ pos st = Prim2SF 0x1.a0aaaaaaa3823p+9%float
  /\ cash st = Prim2SF 0x1.5798p-25%float
  /\ final_equity (report st) = cash st
  /\ total_return (report st) = Prim2SF (-0x1.fffffffff7344p-1)%float
  /\ n_trades (report st) = 0%Z
  /\ ma_cross_backtest prices_nan_last plain_params = inr (report st')
  /\ (pos st' >? d0)%D = true
  /\ final_equity (report st') = cash st.
Proof. vm_compute. repeat split; reflexivity. Qed.

(** C2, counterexample.  From the initial state, at the price [2^-40] with
    no fee and no slippage, the quantity is [10000 * 2^40 > 0] and the cash
    left would be exactly [0], yet the entry is skipped: the fill price is not
    above [1e-12] (line 101).  This is so on doubles and in exact
    arithmetic. *)
Lemma C2_counterexample :
  ((entry_qty plain_params init_state tiny_price >? d0)%D = true
   /\ entry_new_cash plain_params init_state tiny_price = d0
   /\ entry_fill plain_params init_state tiny_price = init_state
   /\ ~ entry_fill_as_specified plain_params init_state tiny_price)
  /\ ((entry_qty plain_params_exact init_state tiny_price_exact >? d0)%D = true
      /\ XQ.xeq (entry_new_cash plain_params_exact init_state tiny_price_exact) d0
      /\ entry_fill plain_params_exact init_state tiny_price_exact = init_state
      /\ ~ entry_fill_as_specified plain_params_exact init_state
            tiny_price_exact).
Proof.
  split.
  - repeat split; try (vm_compute; reflexivity).
    intros Hc. vm_compute in Hc. destruct Hc as [Hc _]. discriminate Hc.
  - repeat split; try (vm_compute; reflexivity).
    intros Hc. vm_compute in Hc. destruct Hc as [Hc _]. discriminate Hc.
Qed.

(** C10.  The forced liquidation changes neither the high-water mark nor
    the drawdown, so the reported drawdown is the one the loop left; the
    counters and the three position fields are the only ones it touches.  On
    the prices 10, 9, 8, 12, 12 with a fee of 1% the position bought at index 3
    is sold by the forced liquidation; the peak is 10000, the reported
    drawdown 0.009900990099000046 and the reported final equity
    9801.980198019999, below [peak * (1 - max_drawdown)], about 9900.99. *)
Theorem C10_liquidation_outside_drawdown :
  (forall (D : Type) (H : Double D) (P : Params D) (px : list D) (st : State D),
     peak (liquidate P px st) = peak st
     /\ maxdd (liquidate P px st) = maxdd st
     /\ max_drawdown (report (liquidate P px st)) = maxdd st)
  /\ (let P := sanitize fee_params in
      let st := loop_state P prices_held in
      let r := report (final_state P prices_held) in
      ma_cross_backtest prices_held fee_params = inr r
      /\ (pos st >? d0)%D = true
      /\ n_trades r = (trades st + 1)%Z
      /\ max_drawdown r = maxdd st
      /\ peak st = dz 10000
      /\ max_drawdown r = Prim2SF 0x1.446f86562c3cap-7%float
      /\ final_equity r = Prim2SF 0x1.324fd7720f3c0p+13%float
      /\ (final_equity r <? peak st * (d1 - max_drawdown r))%D = true).
Proof.
  split.
  - intros D H P px st.
    destruct (liquidate_frame P px st) as [Hp Hm].
    repeat split; assumption.
  - vm_compute. repeat split; reflexivity.
Qed.
(** ** The moving average as the loop computes it *)

Section RunningSum.

Context {D : Type} `{Double D}.
Local Open Scope double_scope.

(** The value of [s] when iteration [i] of the second loop of [compute_sma]
    writes [out[i]]: the sum before, plus [x[i]], minus [x[i-w]] once
    [i >= w], each step in the arithmetic of the code. *)
Fixpoint running_sum (x : list D) (w : Z) (i : nat) {struct i} : D :=
  let s := match i with
           | O => d0
           | S j => running_sum x w j
           end + nth i x dnan in
  if (w <=? Z.of_nat i)%Z then s - nth (i - Z.to_nat w) x dnan else s.

(** The arithmetic mean of [x[i-w+1 .. i]] as the specification words it:
    the sum of the window, divided by [w]. *)
Definition window_mean (x : list D) (w i : nat) : D :=
  fold_left dadd (firstn w (skipn (i + 1 - w) x)) d0 / of_Z (Z.of_nat w).

Lemma skipn_cons_nth (x : list D) (i : nat) (xi : D) (rest : list D) :
  skipn i x = xi :: rest -> nth i x dnan = xi /\ skipn (S i) x = rest.
Proof.
  revert x. induction i as [|i IH]; intros [|y x] Hx; try discriminate.
  - injection Hx as -> ->. split; reflexivity.
  - apply (IH x Hx).
Qed.

Lemma sma_loop_running (x : list D) (w : Z) (rest : list D) :
  forall (i : nat) (s : D) (k : nat),
    skipn i x = rest ->
    s = match i with O => d0 | S j => running_sum x w j end ->
    (k < length rest)%nat ->
    nth k (sma_loop x w rest i s) dnan
    = if (w <=? Z.of_nat (i + k) + 1)%Z
      then running_sum x w (i + k) / of_Z w else dnan.
Proof.
  induction rest as [|xi rest IH]; intros i s k Hrest Hs Hk;
    [simpl in Hk; lia|].
  destruct (skipn_cons_nth x i xi rest Hrest) as [Hxi Hrest'].
  assert (Hrun : (if (w <=? Z.of_nat i)%Z
                  then s + xi - nth (i - Z.to_nat w) x dnan else s + xi)
                 = running_sum x w i).
  { rewrite Hs, <- Hxi. destruct i; reflexivity. }
  cbn [sma_loop]. rewrite Hrun.
  destruct k as [|k]; cbn [nth].
  - rewrite Nat.add_0_r. reflexivity.
  - replace (i + S k)%nat with (S i + k)%nat by lia.
    apply IH; [exact Hrest' | reflexivity | simpl in Hk; lia].
Qed.

Lemma compute_sma_running (x : list D) (w : Z) (i : nat) :
  (1 < w)%Z -> (i < length x)%nat -> (w <= Z.of_nat i + 1)%Z ->
  nth i (compute_sma x w) dnan = running_sum x w i / of_Z w.
Proof.
  intros Hw Hi Hiw. unfold compute_sma.
  destruct (Z.leb_spec w 1); [lia|].
  rewrite (sma_loop_running x w x 0 d0 i eq_refl eq_refl Hi).
  cbn [Nat.add].
  destruct (Z.leb_spec w (Z.of_nat i + 1)); [reflexivity | lia].
Qed.

End RunningSum.

(** C3, as amended.  For a series of [n] prices and a window [w],
    [compute_sma] returns [n] entries; entry [i] is undefined when
    [i+1 < w]; for [w = 1] (and below) the output is the input itself; and
    for [w > 1] entry [i] with [i+1 >= w] is the running sum of the loop at
    [i], divided by [w].  This holds in every arithmetic, that of doubles
    included. *)
Theorem C3_compute_sma_contract :
  forall (D : Type) (H : Double D) (x : list D) (w : Z),
    length (compute_sma x w) = length x
    /\ (forall i, (Z.of_nat i + 1 < w)%Z -> nth i (compute_sma x w) dnan = dnan)
    /\ ((w <= 1)%Z -> compute_sma x w = x)
    /\ (forall i, (1 < w)%Z -> (i < length x)%nat -> (w <= Z.of_nat i + 1)%Z ->
          nth i (compute_sma x w) dnan = (running_sum x w i / of_Z w)%D).
Proof.
  intros D H x w. split; [apply compute_sma_length|]. split.
  - intros i. apply compute_sma_undefined.
  - split; [apply compute_sma_identity|].
    intros i. apply compute_sma_running.
Qed.

(** C3, counterexample.  On doubles, for the prices [2^53, 1, 1] and the
    window 2, the window of entry 2 is (1, 1), whose mean is 1, but the
    entry is 0: the running sum [2^53 + 1] rounds to [2^53], adding 1 again
    rounds to [2^53] again, and subtracting [2^53] leaves 0. *)
Lemma C3_counterexample :
  let px := map dz [2 ^ 53; 1; 1]%Z in
  firstn 2 (skipn 1 px) = [dz 1; dz 1]
  /\ window_mean px 2 2 = dz 1
  /\ nth 2 (compute_sma px 2) S754_nan = dz 0
  /\ nth 2 (compute_sma px 2) S754_nan <> window_mean px 2 2.
Proof.
  vm_compute. repeat split; try reflexivity. discriminate.
Qed.

(** ** A round trip at no cost, on doubles *)

Module RoundTripB64.

Import B64.

Local Open Scope double_scope.

(** The sign bit; [false] for NaN. *)
Definition negative (x : double) : bool :=
  match x with
  | S754_zero s | S754_infinity s | S754_finite s _ _ => s
  | S754_nan => false
  end.

(** Zero or finite: neither NaN nor an infinity. *)
Definition is_number (x : double) : bool :=
  match x with
  | S754_zero _ | S754_finite _ _ _ => true
  | _ => false
  end.

Lemma ltb_same (x : double) : SFltb x x = false.
Proof.
  unfold SFltb. destruct (is_nan x) eqn:Hn.
  - destruct x; try discriminate Hn. reflexivity.
  - rewrite (compare_refl x Hn). reflexivity.
Qed.

Lemma leb_notnan_r (x y : double) : SFleb x y = true -> is_nan y = false.
Proof. destruct y, x; try discriminate; reflexivity. Qed.

Lemma binary_round_aux_sign (s : bool) (m e : Z) (l : location) :
  let r := binary_round_aux prec emax s m e l in
  is_nan r = false -> negative r = s.
Proof.
  unfold binary_round_aux.
  destruct (shr_fexp prec emax m e l) as [mrs' e'].
  destruct (shr_fexp prec emax _ e' loc_Exact) as [mrs'' e''].
  destruct (shr_m mrs'') as [|q|q]; [reflexivity | | discriminate].
  destruct (e'' <=? emax - prec)%Z; reflexivity.
Qed.

Lemma mul_sign (x y : double) :
  is_nan (x * y) = false -> negative (x * y) = xorb (negative x) (negative y).
Proof.
  destruct x as [sx|sx| |sx mx ex], y as [sy|sy| |sy my ey];
    try discriminate; try reflexivity.
  apply binary_round_aux_sign.
Qed.

Lemma positive_sign (x : double) :
  (x >? d0) = true -> is_nan x = false /\ negative x = false.
Proof.
  destruct x as [s|s| |s m e]; try discriminate;
    destruct s; try discriminate; split; reflexivity.
Qed.

(** The constant [1e-12], evaluated. *)
Definition eps_bits : double := Eval vm_compute in (@eps double ops).

Lemma eps_evaluated : @eps double ops = eps_bits.
Proof. vm_compute. reflexivity. Qed.

Lemma above_eps_sign (x : double) :
  (x >? eps) = true -> is_nan x = false /\ negative x = false.
Proof.
  rewrite eps_evaluated. unfold eps_bits.
  destruct x as [s|s| |s m e]; try discriminate;
    destruct s; try discriminate; split; reflexivity.
Qed.

(** A fee at rate 0 on an amount that is a number is [+0] or [-0], and adding
    it changes nothing. *)
Lemma add_fee_zero (k : double) :
  is_number k = true -> k + k * dz 0 = k.
Proof. destruct k as [[|]|s| |s m e]; try discriminate; reflexivity. Qed.

(** Subtracting it changes nothing either, unless the amount is [-0]. *)
Lemma sub_fee_zero (k : double) :
  is_number k = true -> negative k = false -> k - k * dz 0 = k.
Proof.
  destruct k as [[|]|s| |s m e]; try discriminate; reflexivity.
Qed.

(** A cash update with an amount that is not a number gives NaN. *)
Lemma sub_charge_nan (c k : double) :
  is_nan k = false -> is_number k = false -> is_nan (c - (k + k * dz 0)) = true.
Proof.
  destruct k as [s|s| |s m e]; try discriminate; intros _ _.
  destruct c; reflexivity.
Qed.

Lemma settle_nan (x : double) : is_nan x = true -> is_nan (settle x) = true.
Proof. destruct x; try discriminate. reflexivity. Qed.

Section NoCost.

Variable P : Params double.
Hypothesis no_fee : fee_rate P = dz 0.
Hypothesis no_slip : slip_bps P = dz 0.

Lemma buy_fill_no_slip (p : double) : entry_p_fill P p = p * dz 1.
Proof.
  unfold entry_p_fill. rewrite no_slip.
  replace (d1 + dz 0 / of_Z 10000) with (dz 1) by (vm_compute; reflexivity).
  reflexivity.
Qed.

Lemma sell_fill_no_slip (p : double) :
  p * (d1 - slip_bps P / of_Z 10000) = p * dz 1.
Proof.
  rewrite no_slip.
  replace (d1 - dz 0 / of_Z 10000) with (dz 1) by (vm_compute; reflexivity).
  reflexivity.
Qed.

(** What an executed entry charges: quantity times fill price, a number that
    is not negative. *)
Lemma entry_charge (st : State double) (p : double) :
  entry_executes P st p = true ->
  let k := entry_qty P st p * entry_p_fill P p in
  is_number k = true /\ negative k = false
  /\ entry_new_cash P st p = cash st - k.
Proof.
  intros He k.
  pose proof He as He'. unfold entry_executes in He'.
  rewrite !andb_true_iff in He'. destruct He' as [[Hd Hq] Hs].
  assert (Hnan : is_nan (settle (entry_new_cash P st p)) = false)
    by (apply (leb_notnan_r _ _ Hs)).
  assert (Hnc : entry_new_cash P st p = cash st - (k + k * dz 0)).
  { unfold entry_new_cash. rewrite no_fee. reflexivity. }
  assert (Hk : is_nan k = false).
  { destruct (is_nan k) eqn:Hkn; [|reflexivity].
    rewrite Hnc in Hnan. destruct k; try discriminate Hkn.
    destruct (cash st); discriminate Hnan. }
  assert (Hnum : is_number k = true).
  { destruct (is_number k) eqn:Hkn; [reflexivity|].
    rewrite Hnc, (settle_nan _ (sub_charge_nan (cash st) k Hk Hkn)) in Hnan.
    discriminate Hnan. }
  assert (Hsign : negative k = false).
  { unfold k. rewrite (mul_sign _ _ Hk).
    destruct (positive_sign _ Hq) as [_ ->].
    destruct (above_eps_sign _ Hd) as [Hdn Hds].
    unfold entry_denom in Hdn, Hds. rewrite (mul_sign _ _ Hdn) in Hds.
    rewrite no_fee in Hds.
    replace (negative (d1 + dz 0)) with false in Hds by (vm_compute; reflexivity).
    rewrite xorb_false_r in Hds. rewrite Hds. reflexivity. }
  split; [exact Hnum|]. split; [exact Hsign|].
  rewrite Hnc, (add_fee_zero k Hnum). reflexivity.
Qed.

Lemma round_trip (st : State double) (p : double) :
  entry_executes P st p = true ->
  let st1 := entry_fill P st p in
  let st2 := exit_fill P st1 p in
  let k := pos st1 * entry st1 in
  is_number k = true /\ negative k = false
  /\ (pos st1 >? d0) = true
  /\ entry st1 = p * dz 1
  /\ cash st1 = clamp_nonneg (settle (cash st - k))
  /\ cash st2 = clamp_nonneg (cash st1 + k)
  /\ pos st2 = d0 /\ entry st2 = S754_nan
  /\ trades st2 = (trades st + 1)%Z /\ wins st2 = wins st.
Proof.
  intros He st1 st2 k.
  assert (Hst1 : st1 = entered P st p).
  { unfold st1. rewrite entry_fill_cases, He. reflexivity. }
  destruct (entry_charge st p He) as (Hnum & Hsign & Hnc).
  destruct (entry_executes_defined P st p He) as [Hq _].
  assert (Hk : k = entry_qty P st p * entry_p_fill P p)
    by (unfold k; rewrite Hst1; reflexivity).
  rewrite <- Hk in Hnum, Hsign, Hnc.
  split; [exact Hnum|]. split; [exact Hsign|].
  split; [rewrite Hst1; exact Hq|].
  split; [rewrite Hst1; apply buy_fill_no_slip|].
  split; [rewrite Hst1; cbn [cash entered]; rewrite Hnc; reflexivity|].
  assert (Hsold : pos st1 * (p * (d1 - slip_bps P / of_Z 10000)) = k).
  { rewrite sell_fill_no_slip. unfold k.
    rewrite Hst1. cbn [pos entry entered]. rewrite buy_fill_no_slip.
    reflexivity. }
  unfold st2, exit_fill, sell. cbn [cash pos entry trades wins].
  rewrite Hsold, no_fee, (sub_fee_zero k Hnum Hsign).
  repeat split; try reflexivity.
  - rewrite Hst1. reflexivity.
  - rewrite sell_fill_no_slip.
    replace (entry st1) with (p * dz 1)
      by (rewrite Hst1; symmetry; apply buy_fill_no_slip).
    change (@dlt double ops) with SFltb. rewrite ltb_same.
    rewrite Hst1. reflexivity.
Qed.

End NoCost.

End RoundTripB64.

(** C9, as amended.  On doubles, with [fee_rate = 0] and [slip_bps = 0], an
    entry fill at a price [p] either leaves the state unchanged or charges an
    amount [k], the quantity bought times the fill price [p * 1.0], which is
    a number and not negative; the exit fill at the same price that follows
    pays back that same [k], sets the position to zero and the entry price
    to NaN, and counts one trade and no win.  So the cash after the round
    trip is the original cash with [k] subtracted and added back in double
    arithmetic (a negative residue above [-1e-6] being reset to zero in
    between): the original value up to the rounding of these two steps. *)
Theorem C9_round_trip_no_cost (P : Params B64.double) (st : State B64.double)
  (p : B64.double) :
  fee_rate P = dz 0 -> slip_bps P = dz 0 ->
  let st1 := entry_fill P st p in
  let st2 := exit_fill P st1 p in
  let k := (pos st1 * entry st1)%D in
  st1 = st
  \/ (RoundTripB64.is_number k = true /\ RoundTripB64.negative k = false
      /\ (pos st1 >? d0)%D = true
      /\ entry st1 = (p * dz 1)%D
      /\ cash st1 = clamp_nonneg (settle (cash st - k)%D)
      /\ cash st2 = clamp_nonneg (cash st1 + k)%D
      /\ pos st2 = d0 /\ entry st2 = S754_nan
      /\ trades st2 = (trades st + 1)%Z /\ wins st2 = wins st).
Proof.
  intros Hfee Hslip st1 st2 k.
  destruct (entry_executes P st p) eqn:He.
  - right. exact (RoundTripB64.round_trip P Hfee Hslip st p He).
  - left. unfold st1. rewrite entry_fill_cases, He. reflexivity.
Qed.

(** From the initial state at the price 12: 833.33333333 units are bought for
    9999.99999996, and the sale returns exactly 10000. *)
Lemma C9_witness :
  let st1 := entry_fill plain_params init_state (dz 12) in
  let st2 := exit_fill plain_params st1 (dz 12) in
  (pos st1 >? d0)%D = true
  /\ cash st2 = clamp_nonneg (cash st1 + pos st1 * entry st1)%D
  /\ cash st2 = dz 10000.
Proof.
  intros st1 st2.
  destruct (C9_round_trip_no_cost plain_params init_state (dz 12)
              eq_refl eq_refl)
    as [Hsame | (_ & _ & Hq & _ & _ & Hc & _)].
  - vm_compute in Hsame. discriminate Hsame.
  - split; [exact Hq|]. split; [exact Hc|]. vm_compute. reflexivity.
Defined.

(** C9, counterexample.  On doubles, from the initial cash 10000 at the price
    5.43e-05 with no fee and no slippage, the entry buys 184162062.61510134
    units and the exit at the same price returns 10000.000000000002: that
    is [2^-39], about 1.8e-12, more than the cash before, and more than one
    lot's worth, [1e-8 * 5.43e-05], about 5.4e-13. *)
Lemma C9_counterexample :
  let p := lit 543 (10 ^ 7) in
  let st1 := entry_fill plain_params init_state p in
  let st2 := exit_fill plain_params st1 p in
  p = Prim2SF 0x1.c7805cb1b1be5p-15%float
  /\ fee_rate plain_params = dz 0 /\ slip_bps plain_params = dz 0
  /\ cash init_state = dz 10000
  /\ (pos st1 >? d0)%D = true
  /\ cash st2 = Prim2SF 0x1.3880000000001p+13%float
  /\ cash st2 <> cash init_state
  /\ (cash st2 - cash init_state >? lot_round * p)%D = true.
Proof.
  vm_compute. repeat split; try reflexivity. discriminate.
Qed.

(** * Rounding on doubles

    What the operations of [SpecFloat] do to well-formed doubles: the result
    is well formed, and it does not pass a double that bounds the exact
    result. *)

Module Rounding.

Import B64.

Local Open Scope Z_scope.

(** ** Number of binary digits *)

Definition dg (m : Z) : Z := Zdigits2 m.

Lemma fexp_eq (z : Z) : fexp prec emax z = Z.max (z - 53) (-1074).
Proof. reflexivity. Qed.

Lemma digits2_pos_size (p : positive) : digits2_pos p = Pos.size p.
Proof. induction p; simpl; congruence. Qed.

Lemma dg_pos (p : positive) : dg (Z.pos p) = Z.log2 (Z.pos p) + 1.
Proof.
  unfold dg. destruct p; simpl; rewrite ?digits2_pos_size; try lia.
Qed.

Lemma dg_zero : dg 0 = 0.
Proof. reflexivity. Qed.

Lemma dg_nonneg (m : Z) : 0 <= dg m.
Proof. destruct m; unfold dg; simpl; lia. Qed.

Lemma dg_positive (m : Z) : 0 < m -> 1 <= dg m.
Proof. destruct m; unfold dg; simpl; lia. Qed.

Lemma dg_bounds (m : Z) : 0 < m -> 2 ^ (dg m - 1) <= m < 2 ^ dg m.
Proof.
  intros Hm. destruct m as [|p|p]; try lia.
  rewrite dg_pos. replace (Z.log2 (Z.pos p) + 1 - 1) with (Z.log2 (Z.pos p)) by lia.
  apply Z.log2_spec. lia.
Qed.

Lemma dg_unique (m d : Z) : 1 <= d -> 2 ^ (d - 1) <= m < 2 ^ d -> dg m = d.
Proof.
  intros Hd Hm.
  assert (H0 : 0 < m) by (pose proof (Z.pow_pos_nonneg 2 (d - 1)); lia).
  destruct m as [|p|p]; try lia.
  rewrite dg_pos.
  rewrite (Z.log2_unique (Z.pos p) (d - 1)); try lia.
  replace (Z.succ (d - 1)) with d by lia. exact Hm.
Qed.

Lemma dg_le_of_lt_pow (m d : Z) : 0 <= m -> 0 <= d -> m < 2 ^ d -> dg m <= d.
Proof.
  intros Hm Hd Hlt. destruct m as [|p|p]; try lia.
  - rewrite dg_zero. exact Hd.
  - rewrite dg_pos. apply Z.log2_lt_pow2 in Hlt; lia.
Qed.

Lemma dg_gt_of_pow_le (m d : Z) : 0 <= d -> 2 ^ d <= m -> d + 1 <= dg m.
Proof.
  intros Hd Hle.
  assert (H0 : 0 < m) by (pose proof (Z.pow_pos_nonneg 2 d); lia).
  destruct m as [|p|p]; try lia.
  rewrite dg_pos. apply Z.log2_le_pow2 in Hle; lia.
Qed.

(** Digits of a quotient by a power of two. *)
Lemma dg_div_pow2 (m n : Z) :
  0 <= m -> 0 <= n -> dg (m / 2 ^ n) = Z.max (dg m - n) 0.
Proof.
  intros Hm Hn.
  assert (Hpn : 0 < 2 ^ n) by (apply Z.pow_pos_nonneg; lia).
  destruct (Z.eq_dec m 0) as [-> | Hm0].
  - rewrite Z.div_0_l by lia. rewrite dg_zero. lia.
  - destruct (dg_bounds m ltac:(lia)) as [Hlo Hhi].
    pose proof (dg_positive m ltac:(lia)) as Hd.
    destruct (Z_le_gt_dec (dg m) n) as [Hsmall | Hbig].
    + assert (Hlt : m < 2 ^ n).
      { apply Z.lt_le_trans with (2 ^ dg m); [exact Hhi|].
        apply Z.pow_le_mono_r; lia. }
      rewrite Z.div_small by lia. rewrite dg_zero. lia.
    + replace (Z.max (dg m - n) 0) with (dg m - n) by lia.
      apply dg_unique; [lia|].
      split.
      * apply Z.div_le_lower_bound; [lia|].
        rewrite <- Z.pow_add_r by lia.
        replace (n + (dg m - n - 1)) with (dg m - 1) by lia. exact Hlo.
      * apply Z.div_lt_upper_bound; [lia|].
        rewrite <- Z.pow_add_r by lia.
        replace (n + (dg m - n)) with (dg m) by lia. exact Hhi.
Qed.

(** Digits of a successor: the same, or one more at a power of two. *)
Lemma dg_succ (m : Z) :
  0 <= m ->
  dg (m + 1) = dg m \/ (dg (m + 1) = dg m + 1 /\ m + 1 = 2 ^ dg m).
Proof.
  intros Hm. destruct (Z.eq_dec m 0) as [-> | Hm0].
  - right. split; reflexivity.
  - destruct (dg_bounds m ltac:(lia)) as [Hlo Hhi].
    pose proof (dg_positive m ltac:(lia)) as Hd.
    destruct (Z.eq_dec (m + 1) (2 ^ dg m)) as [Heq | Hne].
    + right. split; [|exact Heq].
      apply dg_unique; [lia|].
      replace (dg m + 1 - 1) with (dg m) by lia.
      rewrite Heq. split; [lia|].
      apply Z.pow_lt_mono_r; lia.
    + left. apply dg_unique; [lia|]. lia.
Qed.

Lemma dg_pow2 (d : Z) : 0 <= d -> dg (2 ^ d) = d + 1.
Proof.
  intros Hd. apply dg_unique; [lia|].
  replace (d + 1 - 1) with d by lia. split; [lia|].
  apply Z.pow_lt_mono_r; lia.
Qed.

Lemma dg_mul_pow2 (m n : Z) : 0 < m -> 0 <= n -> dg (m * 2 ^ n) = dg m + n.
Proof.
  intros Hm Hn. destruct (dg_bounds m Hm) as [Hlo Hhi].
  pose proof (dg_positive m Hm) as Hd.
  assert (Hpn : 0 < 2 ^ n) by (apply Z.pow_pos_nonneg; lia).
  apply dg_unique; [lia|].
  replace (dg m + n - 1) with (dg m - 1 + n) by lia.
  rewrite !Z.pow_add_r by lia. split; nia.
Qed.

(** The exponent function is monotone. *)
Lemma fexp_mono (a b : Z) : a <= b -> fexp prec emax a <= fexp prec emax b.
Proof. rewrite !fexp_eq. lia. Qed.

(** ** Shifting right *)

Lemma iter_pos_nat {A : Type} (f : A -> A) (p : positive) (x : A) :
  iter_pos f p x = Nat.iter (Pos.to_nat p) f x.
Proof.
  revert x. induction p as [p IH | p IH | ]; intros x; simpl iter_pos.
  - rewrite !IH, Pos2Nat.inj_xI.
    rewrite <- Nat.iter_add, <- Nat.iter_succ_r.
    f_equal. lia.
  - rewrite !IH, Pos2Nat.inj_xO, <- Nat.iter_add. f_equal. lia.
  - reflexivity.
Qed.

Lemma shr_1_m (mrs : shr_record) :
  0 <= shr_m mrs -> shr_m (shr_1 mrs) = shr_m mrs / 2.
Proof.
  destruct mrs as [m r s]. cbn [shr_m]. intros Hm.
  destruct m as [|[p|p|]|p]; try lia; cbn [shr_1 shr_m].
  - reflexivity.
  - rewrite Pos2Z.inj_xI.
    apply (Z.div_unique (2 * Z.pos p + 1) 2 (Z.pos p) 1); lia.
  - rewrite Pos2Z.inj_xO.
    apply (Z.div_unique (2 * Z.pos p) 2 (Z.pos p) 0); lia.
  - reflexivity.
Qed.

Lemma shr_1_exact (mrs : shr_record) :
  0 <= shr_m mrs -> shr_r mrs = false -> shr_s mrs = false ->
  shr_m mrs mod 2 = 0 ->
  shr_r (shr_1 mrs) = false /\ shr_s (shr_1 mrs) = false.
Proof.
  destruct mrs as [m r s]. cbn [shr_m shr_r shr_s]. intros Hm -> -> Hev.
  destruct m as [|[p|p|]|p]; try lia; cbn [shr_1 shr_r shr_s orb].
  - split; reflexivity.
  - rewrite Pos2Z.inj_xI in Hev.
    rewrite <- (Z.mod_unique (2 * Z.pos p + 1) 2 (Z.pos p) 1) in Hev; lia.
  - split; reflexivity.
  - discriminate Hev.
Qed.

Lemma shr_iter_m (n : nat) (mrs : shr_record) :
  0 <= shr_m mrs ->
  shr_m (Nat.iter n shr_1 mrs) = shr_m mrs / 2 ^ Z.of_nat n.
Proof.
  intros Hm. induction n as [|n IH].
  - simpl. rewrite Z.div_1_r. reflexivity.
  - change (Nat.iter (S n) shr_1 mrs) with (shr_1 (Nat.iter n shr_1 mrs)).
    assert (Hpn : 0 < 2 ^ Z.of_nat n) by (apply Z.pow_pos_nonneg; lia).
    rewrite shr_1_m by (rewrite IH; apply Z.div_pos; lia).
    rewrite IH, Z.div_div by lia.
    rewrite Nat2Z.inj_succ, Z.pow_succ_r by lia.
    f_equal. lia.
Qed.

Lemma shr_iter_exact (n : nat) (mrs : shr_record) :
  0 <= shr_m mrs -> shr_r mrs = false -> shr_s mrs = false ->
  shr_m mrs mod 2 ^ Z.of_nat n = 0 ->
  shr_r (Nat.iter n shr_1 mrs) = false
  /\ shr_s (Nat.iter n shr_1 mrs) = false.
Proof.
  intros Hm Hr Hs. induction n as [|n IH]; intros Hmod.
  - simpl. split; assumption.
  - change (Nat.iter (S n) shr_1 mrs) with (shr_1 (Nat.iter n shr_1 mrs)).
    assert (Hpn : 0 < 2 ^ Z.of_nat n) by (apply Z.pow_pos_nonneg; lia).
    rewrite Nat2Z.inj_succ, Z.pow_succ_r in Hmod by lia.
    assert (Hdiv : shr_m mrs = 2 * 2 ^ Z.of_nat n * (shr_m mrs / (2 * 2 ^ Z.of_nat n)))
      by (apply Z.div_exact; lia).
    set (k := shr_m mrs / (2 * 2 ^ Z.of_nat n)) in *.
    assert (Hmodn : shr_m mrs mod 2 ^ Z.of_nat n = 0).
    { rewrite Hdiv. replace (2 * 2 ^ Z.of_nat n * k) with (2 * k * 2 ^ Z.of_nat n) by ring.
      apply Z.mod_mul. lia. }
    destruct (IH Hmodn) as [Hr' Hs'].
    apply shr_1_exact; try assumption.
    + rewrite shr_iter_m by exact Hm. apply Z.div_pos; lia.
    + rewrite shr_iter_m by exact Hm. rewrite Hdiv.
      replace (2 * 2 ^ Z.of_nat n * k) with (2 * k * 2 ^ Z.of_nat n) by ring.
      rewrite Z.div_mul by lia.
      replace (2 * k) with (k * 2) by ring. apply Z.mod_mul. lia.
Qed.

Lemma record_of_loc_m (m : Z) (l : location) :
  shr_m (shr_record_of_loc m l) = m.
Proof. destruct l as [|[ | | ]]; reflexivity. Qed.

Lemma loc_of_record_of_loc (m : Z) (l : location) :
  loc_of_shr_record (shr_record_of_loc m l) = l.
Proof. destruct l as [|[ | | ]]; reflexivity. Qed.

(** The first step of rounding: the mantissa is shifted to the exponent the
    format gives its magnitude, and the shift is exact when nothing is
    lost. *)
Lemma shr_fexp_spec (m e : Z) (l : location) :
  0 <= m ->
  let e1 := Z.max e (fexp prec emax (dg m + e)) in
  exists mrs,
    shr_fexp prec emax m e l = (mrs, e1)
    /\ shr_m mrs = m / 2 ^ (e1 - e)
    /\ (l = loc_Exact -> m mod 2 ^ (e1 - e) = 0 ->
        loc_of_shr_record mrs = loc_Exact).
Proof.
  intros Hm e1. unfold shr_fexp, shr. fold (dg m).
  destruct (fexp prec emax (dg m + e) - e) as [|p|p] eqn:Hn.
  - exists (shr_record_of_loc m l).
    replace e1 with e by (unfold e1; lia).
    rewrite Z.sub_diag, Z.pow_0_r, Z.div_1_r, record_of_loc_m.
    split; [reflexivity|]. split; [reflexivity|].
    intros -> _. reflexivity.
  - exists (iter_pos shr_1 p (shr_record_of_loc m l)).
    assert (He1 : e1 = e + Z.pos p) by (unfold e1; lia).
    rewrite He1. replace (e + Z.pos p - e) with (Z.pos p) by lia.
    rewrite iter_pos_nat.
    rewrite <- (positive_nat_Z p).
    split; [reflexivity|]. split.
    + rewrite shr_iter_m by (rewrite record_of_loc_m; exact Hm).
      rewrite record_of_loc_m. reflexivity.
    + intros -> Hmod.
      destruct (shr_iter_exact (Pos.to_nat p) (shr_record_of_loc m loc_Exact))
        as [Hr Hs]; try reflexivity; try assumption.
      destruct (Nat.iter _ _ _) as [m' r' s']. cbn in Hr, Hs. subst.
      reflexivity.
  - exists (shr_record_of_loc m l).
    replace e1 with e by (unfold e1; lia).
    rewrite Z.sub_diag, Z.pow_0_r, Z.div_1_r, record_of_loc_m.
    split; [reflexivity|]. split; [reflexivity|].
    intros -> _. reflexivity.
Qed.

Lemma round_nearest_even_cases (m : Z) (l : location) :
  round_nearest_even m l = m
  \/ (round_nearest_even m l = m + 1 /\ l <> loc_Exact).
Proof.
  destruct l as [|[ | | ]]; cbn [round_nearest_even].
  - left. reflexivity.
  - destruct (Z.even m); [left; reflexivity | right; split; [reflexivity | discriminate]].
  - left. reflexivity.
  - right. split; [reflexivity | discriminate].
Qed.

(** ** Rounding a mantissa and an exponent

    [binary_round_aux] on a mantissa [mx >= 0] with exponent [ex] not above
    the exponent [e1] of the format: the mantissa is divided by
    [2^(e1-ex)], the quotient [m1] is kept or replaced by [m1 + 1] (only
    when something was lost), and the result is renormalised. *)
Lemma bra_spec (s : bool) (mx ex : Z) (lx : location) :
  0 <= mx -> ex <= fexp prec emax (dg mx + ex) ->
  let e1 := fexp prec emax (dg mx + ex) in
  let m1 := mx / 2 ^ (e1 - ex) in
  exists m2 m3 e3,
    (m2 = m1
     \/ (m2 = m1 + 1 /\ ~ (lx = loc_Exact /\ mx mod 2 ^ (e1 - ex) = 0)))
    /\ e1 <= e3 /\ m3 * 2 ^ (e3 - e1) = m2 /\ 0 <= m3
    /\ (0 < m3 -> fexp prec emax (dg m3 + e3) = e3)
    /\ binary_round_aux prec emax s mx ex lx
       = match m3 with
         | Z0 => S754_zero s
         | Zpos p =>
             if e3 <=? emax - prec then S754_finite s p e3
             else S754_infinity s
         | Zneg _ => S754_nan
         end.
Proof.
  intros Hm Hdig e1 m1.
  destruct (shr_fexp_spec mx ex lx Hm) as (mrs & Hshr & Hmrs & Hex).
  replace (Z.max ex (fexp prec emax (dg mx + ex))) with e1
    in Hshr, Hmrs, Hex by (unfold e1; lia).
  fold m1 in Hmrs.
  assert (Hn : 0 <= e1 - ex) by (unfold e1; lia).
  assert (Hp1 : 0 < 2 ^ (e1 - ex)) by (apply Z.pow_pos_nonneg; lia).
  assert (Hm1 : 0 <= m1) by (apply Z.div_pos; lia).
  set (m2 := round_nearest_even (shr_m mrs) (loc_of_shr_record mrs)).
  assert (Hm2 : m2 = m1
                \/ (m2 = m1 + 1
                    /\ ~ (lx = loc_Exact /\ mx mod 2 ^ (e1 - ex) = 0))).
  { unfold m2.
    destruct (round_nearest_even_cases (shr_m mrs) (loc_of_shr_record mrs))
      as [-> | [-> Hl]].
    - left. exact Hmrs.
    - right. split; [rewrite Hmrs; reflexivity|].
      intros [Hl1 Hl2]. apply Hl, Hex; assumption. }
  assert (Hm2pos : 0 <= m2) by (destruct Hm2 as [-> | [-> _]]; lia).
  destruct (shr_fexp_spec m2 e1 loc_Exact Hm2pos) as (mrs2 & Hshr2 & Hmrs2 & _).
  set (e3 := Z.max e1 (fexp prec emax (dg m2 + e1))) in *.
  assert (Hbra : binary_round_aux prec emax s mx ex lx
                 = match m2 / 2 ^ (e3 - e1) with
                   | Z0 => S754_zero s
                   | Zpos p =>
                       if e3 <=? emax - prec then S754_finite s p e3
                       else S754_infinity s
                   | Zneg _ => S754_nan
                   end).
  { unfold binary_round_aux. rewrite Hshr. fold m2. rewrite Hshr2, Hmrs2.
    reflexivity. }
  assert (Hd1 : dg m1 = Z.max (dg mx - (e1 - ex)) 0)
    by (apply dg_div_pow2; lia).
  assert (He1 : e1 = Z.max (dg mx + ex - 53) (-1074)) by apply fexp_eq.
  pose proof (fexp_eq (dg m2 + e1)) as He3.
  pose proof (dg_nonneg mx) as Hdx.
  assert (Hd2 : dg m2 = dg m1 \/ (dg m2 = dg m1 + 1 /\ m2 = 2 ^ dg m1)).
  { destruct Hm2 as [-> | [-> _]]; [left; reflexivity|].
    apply dg_succ, Hm1. }
  assert (Hkey : (e3 = e1 /\ (0 < m2 -> fexp prec emax (dg m2 + e1) = e1))
                 \/ (e3 = e1 + 1 /\ m2 = 2 ^ 53)).
  { destruct Hd2 as [Hd2 | [Hd2 Hpow]].
    - left. split; [unfold e3; lia|].
      intros Hpos. pose proof (dg_positive m2 Hpos). lia.
    - destruct (Z.eq_dec (dg m1) 53) as [H53 | H53].
      + right. split; [unfold e3; lia|]. rewrite Hpow, H53. reflexivity.
      + left. split; [unfold e3; lia|]. intros _. lia. }
  exists m2, (m2 / 2 ^ (e3 - e1)), e3.
  split; [exact Hm2|].
  destruct Hkey as [[He Hc] | [He Hpow]].
  - rewrite He in *. rewrite Z.sub_diag, Z.pow_0_r, Z.div_1_r in *.
    split; [lia|]. split; [lia|]. split; [exact Hm2pos|].
    split; [exact Hc | exact Hbra].
  - assert (Hq : m2 / 2 ^ (e3 - e1) = 2 ^ 52).
    { rewrite He, Hpow. replace (e1 + 1 - e1) with 1 by lia. reflexivity. }
    rewrite Hq in *.
    split; [lia|]. split; [rewrite He, Hpow; replace (e1 + 1 - e1) with 1 by lia; reflexivity|].
    split; [lia|]. split; [|exact Hbra].
    intros _. rewrite dg_pow2 by lia. rewrite fexp_eq. lia.
Qed.

(** ** Well-formed doubles and their order *)

(** A double as the hardware has it: the mantissa of a finite one has the
    number of digits its exponent calls for. *)
Definition valid (x : double) : Prop :=
  SpecFloat.valid_binary prec emax x = true.

(** Mantissa [p] and exponent [e] are in canonical form. *)
Definition canonical (p : positive) (e : Z) : Prop :=
  fexp prec emax (dg (Z.pos p) + e) = e.

Lemma valid_finite (s : bool) (p : positive) (e : Z) :
  valid (S754_finite s p e) <-> canonical p e /\ e <= emax - prec.
Proof.
  unfold valid, canonical, SpecFloat.valid_binary, bounded, canonical_mantissa, dg.
  cbn [Zdigits2]. rewrite andb_true_iff, Z.eqb_eq, Z.leb_le. tauto.
Qed.

Lemma bra_valid (s : bool) (mx ex : Z) (lx : location) :
  0 <= mx -> ex <= fexp prec emax (dg mx + ex) ->
  valid (binary_round_aux prec emax s mx ex lx).
Proof.
  intros Hm Hdig.
  destruct (bra_spec s mx ex lx Hm Hdig)
    as (m2 & m3 & e3 & _ & _ & _ & Hm3 & Hcan & ->).
  destruct m3 as [|p|p]; [reflexivity | | lia].
  destruct (Z.leb_spec e3 (emax - prec)); [|reflexivity].
  apply valid_finite. split; [apply Hcan; lia | assumption].
Qed.

Lemma pow2_pos (n : Z) : 0 <= n -> 0 < 2 ^ n.
Proof. intros Hn. apply Z.pow_pos_nonneg; lia. Qed.

(** With canonical mantissas, a larger exponent means more magnitude. *)
Lemma canonical_magnitude (p q : positive) (e1 e2 : Z) :
  canonical p e1 -> canonical q e2 -> e1 < e2 ->
  dg (Z.pos p) + e1 < dg (Z.pos q) + e2.
Proof.
  unfold canonical. rewrite !fexp_eq. lia.
Qed.

Lemma magnitude_lt (a b : Z) (ea eb e0 : Z) :
  0 < a -> 0 < b -> e0 <= ea -> e0 <= eb ->
  dg a + ea < dg b + eb ->
  a * 2 ^ (ea - e0) < b * 2 ^ (eb - e0).
Proof.
  intros Ha Hb Hea Heb Hmag.
  destruct (dg_bounds a Ha) as [_ Hhi].
  destruct (dg_bounds b Hb) as [Hlo _].
  pose proof (dg_positive a Ha) as Hda.
  pose proof (dg_positive b Hb) as Hdb.
  pose proof (pow2_pos (ea - e0) ltac:(lia)) as Hpa.
  pose proof (pow2_pos (eb - e0) ltac:(lia)) as Hpb.
  apply Z.lt_le_trans with (2 ^ dg a * 2 ^ (ea - e0)); [nia|].
  apply Z.le_trans with (2 ^ (dg b - 1) * 2 ^ (eb - e0)); [|nia].
  rewrite <- !Z.pow_add_r by lia.
  apply Z.pow_le_mono_r; lia.
Qed.

(** From the order of the values to the order of the doubles. *)
Lemma canonical_le (p q : positive) (e3 ea e0 : Z) :
  canonical p e3 -> canonical q ea -> e0 <= e3 -> e0 <= ea ->
  Z.pos p * 2 ^ (e3 - e0) <= Z.pos q * 2 ^ (ea - e0) ->
  e3 <= ea /\ SFleb (S754_finite false p e3) (S754_finite false q ea) = true.
Proof.
  intros Hp Hq H3 Ha Hle.
  assert (Hexp : e3 <= ea).
  { destruct (Z_le_gt_dec e3 ea) as [H|H]; [exact H|].
    pose proof (canonical_magnitude q p ea e3 Hq Hp ltac:(lia)) as Hmag.
    pose proof (magnitude_lt (Z.pos q) (Z.pos p) ea e3 e0
                  ltac:(lia) ltac:(lia) Ha H3 Hmag).
    lia. }
  split; [exact Hexp|].
  unfold SFleb, SFcompare.
  destruct (Z.compare_spec e3 ea) as [Heq | Hlt | Hgt]; [|reflexivity|lia].
  subst ea.
  pose proof (pow2_pos (e3 - e0) ltac:(lia)) as Hpow.
  assert (Hpq : (p <= q)%positive) by (apply Pos2Z.pos_le_pos; nia).
  change (Pos.compare_cont Eq p q) with (Pos.compare p q).
  destruct (Pos.compare_spec p q); try reflexivity. lia.
Qed.

(** From the order of the doubles to the order of the values. *)
Lemma canonical_ltb (p q : positive) (e1 e2 : Z) :
  canonical p e1 -> canonical q e2 ->
  SFltb (S754_finite false p e1) (S754_finite false q e2) = true ->
  Z.pos p * 2 ^ (e1 - Z.min e1 e2) < Z.pos q * 2 ^ (e2 - Z.min e1 e2).
Proof.
  intros Hp Hq. unfold SFltb, SFcompare.
  destruct (Z.compare_spec e1 e2) as [Heq | Hlt | Hgt]; try discriminate.
  - subst e2. change (Pos.compare_cont Eq p q) with (Pos.compare p q).
    destruct (Pos.compare_spec p q); try discriminate. intros _.
    rewrite Z.min_id, Z.sub_diag, Z.pow_0_r. lia.
  - intros _. apply magnitude_lt; try lia.
    apply canonical_magnitude; assumption.
Qed.

Lemma canonical_leb (p q : positive) (e1 e2 : Z) :
  canonical p e1 -> canonical q e2 ->
  SFleb (S754_finite false p e1) (S754_finite false q e2) = true ->
  Z.pos p * 2 ^ (e1 - Z.min e1 e2) <= Z.pos q * 2 ^ (e2 - Z.min e1 e2).
Proof.
  intros Hp Hq. unfold SFleb, SFcompare.
  destruct (Z.compare_spec e1 e2) as [Heq | Hlt | Hgt]; try discriminate.
  - subst e2. change (Pos.compare_cont Eq p q) with (Pos.compare p q).
    destruct (Pos.compare_spec p q); try discriminate; intros _;
      rewrite Z.min_id, Z.sub_diag, Z.pow_0_r; lia.
  - intros _. apply Z.lt_le_incl. apply magnitude_lt; try lia.
    apply canonical_magnitude; assumption.
Qed.

(** ** A bound that is a double bounds the rounded result *)

Lemma bra_le (mx ex : Z) (lx : location) (q : positive) (ea : Z) :
  0 <= mx -> ex <= fexp prec emax (dg mx + ex) ->
  canonical q ea -> ea <= emax - prec -> ex <= ea ->
  mx <= Z.pos q * 2 ^ (ea - ex) ->
  (lx <> loc_Exact -> mx < Z.pos q * 2 ^ (ea - ex)) ->
  let r := binary_round_aux prec emax false mx ex lx in
  valid r
  /\ SFleb (S754_zero false) r = true
  /\ SFleb r (S754_finite false q ea) = true.
Proof.
  intros Hm Hdig Hq Hea Hex Hle Hlt r.
  split; [apply bra_valid; assumption|].
  destruct (bra_spec false mx ex lx Hm Hdig)
    as (m2 & m3 & e3 & Hm2 & He3 & Hm3 & Hm3pos & Hcan & Hr).
  fold r in Hr.
  set (e1 := fexp prec emax (dg mx + ex)) in *.
  set (m1 := mx / 2 ^ (e1 - ex)) in *.
  assert (He1 : e1 <= ea).
  { pose proof Hq as Hq'. unfold canonical in Hq'. rewrite fexp_eq in Hq'.
    destruct (Z.eq_dec mx 0) as [Hmx | Hmx].
    - assert (H0 : e1 = Z.max (ex - 53) (-1074))
        by (unfold e1; rewrite Hmx, dg_zero, fexp_eq; f_equal; lia).
      lia.
    - destruct (Z_le_gt_dec e1 ea) as [H|H]; [exact H|].
      assert (Hmag : dg (Z.pos q) + ea < dg mx + ex).
      { unfold e1 in H. rewrite fexp_eq in H. lia. }
      pose proof (magnitude_lt (Z.pos q) mx ea ex ex
                    ltac:(lia) ltac:(lia) Hex ltac:(lia) Hmag) as Hc.
      rewrite Z.sub_diag, Z.pow_0_r, Z.mul_1_r in Hc. lia. }
  pose proof (pow2_pos (e1 - ex) ltac:(lia)) as Hp1.
  pose proof (pow2_pos (ea - e1) ltac:(lia)) as Hpa.
  assert (Hsplit : Z.pos q * 2 ^ (ea - ex)
                   = Z.pos q * 2 ^ (ea - e1) * 2 ^ (e1 - ex)).
  { rewrite <- Z.mul_assoc, <- Z.pow_add_r by lia. do 2 f_equal. lia. }
  pose proof (Z.div_mod mx (2 ^ (e1 - ex)) ltac:(lia)) as Hdm.
  pose proof (Z.mod_pos_bound mx (2 ^ (e1 - ex)) Hp1) as Hmod.
  fold m1 in Hdm.
  assert (Hm2le : m2 <= Z.pos q * 2 ^ (ea - e1)).
  { destruct Hm2 as [-> | [-> Hne]]; [nia|].
    destruct (Z.eq_dec (mx mod 2 ^ (e1 - ex)) 0) as [H0 | H0]; [|nia].
    assert (Hl : lx <> loc_Exact) by (intros Hl; apply Hne; split; assumption).
    specialize (Hlt Hl). nia. }
  rewrite Hr. destruct m3 as [|p|p]; [split; reflexivity | | lia].
  destruct (canonical_le p q e3 ea e1 (Hcan ltac:(lia)) Hq He3 He1
              ltac:(rewrite Hm3; exact Hm2le)) as [Hexp Hleb].
  destruct (Z.leb_spec e3 (emax - prec)); [|lia].
  split; [reflexivity | exact Hleb].
Qed.

(** ** Rounding a positive mantissa: [binary_round], [binary_normalize] *)

Lemma iter_xO (m d : positive) :
  Z.pos (Pos.iter xO m d) = Z.pos m * 2 ^ Z.pos d.
Proof.
  induction d as [|d IH] using Pos.peano_ind.
  - cbn [Pos.iter]. rewrite Pos2Z.inj_xO. lia.
  - rewrite Pos.iter_succ, Pos2Z.inj_xO, IH, Pos2Z.inj_succ.
    rewrite Z.pow_succ_r by lia. ring.
Qed.

Lemma shl_align_spec (mx : positive) (ex e' : Z) :
  exists mz,
    shl_align mx ex e' = (mz, Z.min ex e')
    /\ Z.pos mz = Z.pos mx * 2 ^ (ex - Z.min ex e').
Proof.
  unfold shl_align. destruct (e' - ex) as [|p|p] eqn:Hd.
  - exists mx. replace (Z.min ex e') with ex by lia.
    rewrite Z.sub_diag, Z.pow_0_r. split; [reflexivity | lia].
  - exists mx. replace (Z.min ex e') with ex by lia.
    rewrite Z.sub_diag, Z.pow_0_r. split; [reflexivity | lia].
  - exists (Pos.iter xO mx p). replace (Z.min ex e') with e' by lia.
    split; [reflexivity|]. rewrite iter_xO. f_equal. f_equal. lia.
Qed.

Lemma binary_round_aligned (s : bool) (mx : positive) (ex : Z) :
  exists mz ez,
    binary_round prec emax s mx ex
    = binary_round_aux prec emax s (Z.pos mz) ez loc_Exact
    /\ ez <= ex
    /\ Z.pos mz = Z.pos mx * 2 ^ (ex - ez)
    /\ ez <= fexp prec emax (dg (Z.pos mz) + ez)
    /\ ez = Z.min ex (fexp prec emax (dg (Z.pos mx) + ex))
    /\ dg (Z.pos mz) + ez = dg (Z.pos mx) + ex.
Proof.
  unfold binary_round.
  change (Z.pos (digits2_pos mx)) with (dg (Z.pos mx)).
  destruct (shl_align_spec mx ex (fexp prec emax (dg (Z.pos mx) + ex)))
    as (mz & -> & Hmz).
  set (ez := Z.min ex (fexp prec emax (dg (Z.pos mx) + ex))) in *.
  exists mz, ez. split; [reflexivity|]. split; [unfold ez; lia|].
  split; [exact Hmz|].
  assert (Hd : dg (Z.pos mz) + ez = dg (Z.pos mx) + ex).
  { rewrite Hmz, dg_mul_pow2 by (unfold ez; lia). lia. }
  split; [rewrite Hd; unfold ez; lia|]. split; [reflexivity | exact Hd].
Qed.

Lemma binary_round_valid (s : bool) (mx : positive) (ex : Z) :
  valid (binary_round prec emax s mx ex).
Proof.
  destruct (binary_round_aligned s mx ex) as (mz & ez & -> & _ & _ & Hdig & _).
  apply bra_valid; [lia | exact Hdig].
Qed.

Lemma binary_normalize_valid (m e : Z) (sz : bool) :
  valid (binary_normalize prec emax m e sz).
Proof.
  destruct m as [|p|p]; cbn [binary_normalize];
    [reflexivity | apply binary_round_valid | apply binary_round_valid].
Qed.

Lemma binary_round_le (mx : positive) (ex : Z) (q : positive) (ea : Z) :
  canonical q ea -> ea <= emax - prec -> ex <= ea ->
  Z.pos mx <= Z.pos q * 2 ^ (ea - ex) ->
  let r := binary_round prec emax false mx ex in
  valid r
  /\ SFleb (S754_zero false) r = true
  /\ SFleb r (S754_finite false q ea) = true.
Proof.
  intros Hq Hea Hex Hle.
  destruct (binary_round_aligned false mx ex)
    as (mz & ez & -> & Hez & Hmz & Hdig & _).
  apply bra_le; try assumption; try lia.
  - rewrite Hmz.
    replace (ea - ez) with ((ea - ex) + (ex - ez)) by lia.
    rewrite Z.pow_add_r by lia.
    pose proof (pow2_pos (ex - ez) ltac:(lia)). nia.
  - intros Hl. contradiction Hl. reflexivity.
Qed.

(** ** Results are well formed *)

Lemma valid_add (x y : double) :
  valid x -> valid y -> valid (SFadd prec emax x y).
Proof.
  intros Hx Hy.
  destruct x as [sx|sx| |sx mx ex], y as [sy|sy| |sy my ey];
    try assumption; try reflexivity.
  - destruct sx, sy; reflexivity.
  - destruct sx, sy; reflexivity.
  - apply binary_normalize_valid.
Qed.

Lemma valid_sub (x y : double) :
  valid x -> valid y -> valid (SFsub prec emax x y).
Proof.
  intros Hx Hy.
  destruct x as [sx|sx| |sx mx ex], y as [sy|sy| |sy my ey];
    try assumption; try reflexivity.
  - destruct sx, sy; reflexivity.
  - destruct sx, sy; reflexivity.
  - apply binary_normalize_valid.
Qed.

Lemma dg_mul_lower (a b : Z) : 0 < a -> 0 < b -> dg a + dg b - 1 <= dg (a * b).
Proof.
  intros Ha Hb.
  destruct (dg_bounds a Ha) as [Hla _]. destruct (dg_bounds b Hb) as [Hlb _].
  pose proof (dg_positive a Ha). pose proof (dg_positive b Hb).
  pose proof (pow2_pos (dg a - 1) ltac:(lia)).
  pose proof (pow2_pos (dg b - 1) ltac:(lia)).
  assert (Hle : 2 ^ (dg a + dg b - 2) <= a * b).
  { replace (dg a + dg b - 2) with ((dg a - 1) + (dg b - 1)) by lia.
    rewrite Z.pow_add_r by lia. nia. }
  pose proof (dg_gt_of_pow_le (a * b) (dg a + dg b - 2) ltac:(lia) Hle). lia.
Qed.

Lemma valid_mul (x y : double) :
  valid x -> valid y -> valid (SFmul prec emax x y).
Proof.
  intros Hx Hy.
  destruct x as [sx|sx| |sx mx ex], y as [sy|sy| |sy my ey];
    try reflexivity.
  apply valid_finite in Hx, Hy. destruct Hx as [Hx _], Hy as [Hy _].
  unfold canonical in Hx, Hy. rewrite fexp_eq in Hx, Hy.
  cbn [SFmul]. apply bra_valid; [lia|].
  rewrite Pos2Z.inj_mul, fexp_eq.
  pose proof (dg_mul_lower (Z.pos mx) (Z.pos my) ltac:(lia) ltac:(lia)).
  pose proof (dg_positive (Z.pos mx) ltac:(lia)).
  pose proof (dg_positive (Z.pos my) ltac:(lia)).
  lia.
Qed.

(** The quotient of two mantissas, as [SFdiv] prepares it for rounding. *)
Lemma div_core_spec (mn mp : positive) (en ep : Z) :
  let e' := Z.min (fexp prec emax (dg (Z.pos mn) + en - (dg (Z.pos mp) + ep)))
              (en - ep) in
  let n' := Z.pos mn * 2 ^ (en - ep - e') in
  exists l,
    SFdiv_core_binary prec emax (Z.pos mn) en (Z.pos mp) ep
    = (n' / Z.pos mp, e', l)
    /\ (l <> loc_Exact -> n' mod Z.pos mp <> 0)
    /\ 0 <= n' / Z.pos mp
    /\ e' <= fexp prec emax (dg (n' / Z.pos mp) + e').
Proof.
  intros e' n'.
  assert (Hs : 0 <= en - ep - e') by (unfold e'; lia).
  pose proof (pow2_pos _ Hs) as Hps.
  assert (Hn' : 0 < n') by (unfold n'; nia).
  unfold SFdiv_core_binary. fold (dg (Z.pos mn)) (dg (Z.pos mp)). fold e'.
  assert (Hm' : match en - ep - e' with
                | 0 => Z.pos mn
                | Z.pos _ => Z.shiftl (Z.pos mn) (en - ep - e')
                | Z.neg _ => 0
                end = n').
  { unfold n'. destruct (en - ep - e') as [|p|p] eqn:Hd; [| |lia].
    - rewrite Z.pow_0_r. lia.
    - rewrite Z.shiftl_mul_pow2 by lia. reflexivity. }
  rewrite Hm'.
  assert (Hq : fst (Z.div_eucl n' (Z.pos mp)) = n' / Z.pos mp) by reflexivity.
  assert (Hr : snd (Z.div_eucl n' (Z.pos mp)) = n' mod Z.pos mp) by reflexivity.
  destruct (Z.div_eucl n' (Z.pos mp)) as [q r]. cbn [fst snd] in Hq, Hr.
  subst q r.
  exists (new_location (Z.pos mp) (n' mod Z.pos mp)).
  split; [reflexivity|]. split.
  - intros Hl H0. apply Hl. rewrite H0.
    unfold new_location, new_location_even, new_location_odd.
    destruct (Z.even (Z.pos mp)); reflexivity.
  - assert (Hq0 : 0 <= n' / Z.pos mp) by (apply Z.div_pos; lia).
    split; [exact Hq0|].
    assert (Hdn : dg n' = dg (Z.pos mn) + (en - ep - e'))
      by (unfold n'; apply dg_mul_pow2; lia).
    assert (Hdq : dg n' - dg (Z.pos mp) <= dg (n' / Z.pos mp)).
    { pose proof (dg_nonneg (n' / Z.pos mp)).
      destruct (Z_le_gt_dec (dg n' - dg (Z.pos mp)) 0) as [H0 | H0]; [lia|].
      destruct (dg_bounds n' Hn') as [Hlo _].
      destruct (dg_bounds (Z.pos mp) ltac:(lia)) as [_ Hhi].
      pose proof (dg_positive (Z.pos mp) ltac:(lia)).
      assert (Hk : 2 ^ (dg n' - dg (Z.pos mp) - 1) <= n' / Z.pos mp).
      { apply Z.div_le_lower_bound; [lia|].
        pose proof (pow2_pos (dg n' - dg (Z.pos mp) - 1) ltac:(lia)).
        apply Z.le_trans with (2 ^ dg (Z.pos mp) * 2 ^ (dg n' - dg (Z.pos mp) - 1));
          [nia|].
        rewrite <- Z.pow_add_r by lia.
        replace (dg (Z.pos mp) + (dg n' - dg (Z.pos mp) - 1)) with (dg n' - 1)
          by lia.
        exact Hlo. }
      pose proof (dg_gt_of_pow_le (n' / Z.pos mp)
                    (dg n' - dg (Z.pos mp) - 1) ltac:(lia) Hk).
      lia. }
    apply Z.le_trans
      with (fexp prec emax (dg (Z.pos mn) + en - (dg (Z.pos mp) + ep)));
      [unfold e'; lia|].
    apply fexp_mono. lia.
Qed.

Lemma valid_div (x y : double) : valid (SFdiv prec emax x y).
Proof.
  destruct x as [sx|sx| |sx mx ex], y as [sy|sy| |sy my ey];
    try reflexivity.
  cbn [SFdiv].
  destruct (div_core_spec mx my ex ey) as (l & -> & _ & Hq & Hdig).
  apply bra_valid; assumption.
Qed.

Lemma valid_floor (x : double) : valid x -> valid (floor x).
Proof.
  intros Hx. destruct x as [s|s| |s m e]; try exact Hx.
  unfold floor. destruct (0 <=? e); [exact Hx|].
  apply binary_normalize_valid.
Qed.

Lemma valid_of_int (z : Z) : valid (of_int z).
Proof. apply binary_normalize_valid. Qed.

(** ** Signs *)

Definition nonneg (x : double) : Prop := SFleb (S754_zero false) x = true.

Lemma bra_nonneg (mx ex : Z) (lx : location) :
  0 <= mx -> ex <= fexp prec emax (dg mx + ex) ->
  nonneg (binary_round_aux prec emax false mx ex lx).
Proof.
  intros Hm Hdig.
  destruct (bra_spec false mx ex lx Hm Hdig)
    as (m2 & m3 & e3 & _ & _ & _ & Hm3 & _ & ->).
  destruct m3 as [|p|p]; [reflexivity | | lia].
  destruct (e3 <=? emax - prec); reflexivity.
Qed.

Lemma binary_round_nonneg (mx : positive) (ex : Z) :
  nonneg (binary_round prec emax false mx ex).
Proof.
  destruct (binary_round_aligned false mx ex)
    as (mz & ez & -> & _ & _ & Hdig & _).
  apply bra_nonneg; [lia | exact Hdig].
Qed.

Lemma nonneg_add (x y : double) :
  nonneg x -> nonneg y -> nonneg (SFadd prec emax x y).
Proof.
  unfold nonneg. intros Hx Hy.
  destruct x as [sx|sx| |sx mx ex]; try discriminate Hx;
    destruct y as [sy|sy| |sy my ey]; try discriminate Hy;
    try (destruct sx; try discriminate Hx);
    try (destruct sy; try discriminate Hy);
    try reflexivity.
  cbn [SFadd cond_Zopp Z.add].
  apply binary_round_nonneg.
Qed.

Lemma nonneg_mul (x y : double) :
  valid x -> valid y -> nonneg x -> nonneg y ->
  is_nan (SFmul prec emax x y) = true \/ nonneg (SFmul prec emax x y).
Proof.
  unfold nonneg. intros Vx Vy Hx Hy.
  destruct x as [sx|sx| |sx mx ex]; try discriminate Hx;
    destruct y as [sy|sy| |sy my ey]; try discriminate Hy;
    try (destruct sx; try discriminate Hx);
    try (destruct sy; try discriminate Hy);
    try (left; reflexivity); try (right; reflexivity).
  right. cbn [SFmul xorb].
  apply valid_finite in Vx, Vy. destruct Vx as [Vx _], Vy as [Vy _].
  unfold canonical in Vx, Vy. rewrite fexp_eq in Vx, Vy.
  apply bra_nonneg; [lia|].
  rewrite Pos2Z.inj_mul, fexp_eq.
  pose proof (dg_mul_lower (Z.pos mx) (Z.pos my) ltac:(lia) ltac:(lia)).
  pose proof (dg_positive (Z.pos mx) ltac:(lia)).
  pose proof (dg_positive (Z.pos my) ltac:(lia)).
  lia.
Qed.

(** ** Difference and quotient of two positive doubles *)

Lemma sub_self (s : bool) (m : positive) (e : Z) :
  SFsub prec emax (S754_finite s m e) (S754_finite s m e) = S754_zero false.
Proof.
  cbn [SFsub]. rewrite Z.sub_diag. reflexivity.
Qed.

(** [b < a] gives [0 <= a - b <= a], rounded. *)
Lemma sub_le (mp me : positive) (ep ee : Z) :
  valid (S754_finite false mp ep) -> valid (S754_finite false me ee) ->
  SFltb (S754_finite false me ee) (S754_finite false mp ep) = true ->
  let n := SFsub prec emax (S754_finite false mp ep) (S754_finite false me ee) in
  valid n /\ nonneg n /\ SFleb n (S754_finite false mp ep) = true.
Proof.
  intros Vp Ve Hlt.
  apply valid_finite in Vp, Ve. destruct Vp as [Cp Bp], Ve as [Ce Be].
  pose proof (canonical_ltb me mp ee ep Ce Cp Hlt) as Hval.
  rewrite (Z.min_comm ee ep) in Hval.
  cbn [SFsub cond_Zopp].
  destruct (shl_align_spec mp ep (Z.min ep ee)) as (a & Ha & Hva).
  destruct (shl_align_spec me ee (Z.min ep ee)) as (b & Hb & Hvb).
  replace (Z.min ep (Z.min ep ee)) with (Z.min ep ee) in Ha, Hva by lia.
  replace (Z.min ee (Z.min ep ee)) with (Z.min ep ee) in Hb, Hvb by lia.
  rewrite Ha, Hb. cbn [fst].
  destruct (Z.pos a - Z.pos b) as [|d|d] eqn:Hd; try lia.
  cbn [binary_normalize].
  apply binary_round_le; try assumption; lia.
Qed.

Definition one : double := S754_finite false 4503599627370496 (-52).

Lemma one_evaluated : @d1 double ops = one.
Proof. reflexivity. Qed.

(** [0 < n <= a] gives [n / a <= 1], rounded. *)
Lemma div_le_one (mn mp : positive) (en ep : Z) :
  valid (S754_finite false mn en) -> valid (S754_finite false mp ep) ->
  SFleb (S754_finite false mn en) (S754_finite false mp ep) = true ->
  SFleb (SFdiv prec emax (S754_finite false mn en) (S754_finite false mp ep))
    one = true.
Proof.
  intros Vn Vp Hle.
  apply valid_finite in Vn, Vp. destruct Vn as [Cn Bn], Vp as [Cp Bp].
  pose proof (canonical_leb mn mp en ep Cn Cp Hle) as Hval.
  assert (Hexp : en <= ep).
  { revert Hle. unfold SFleb, SFcompare.
    destruct (Z.compare_spec en ep); [lia | lia | discriminate]. }
  replace (Z.min en ep) with en in Hval by lia.
  rewrite Z.sub_diag, Z.pow_0_r, Z.mul_1_r in Hval.
  assert (Hmag : dg (Z.pos mn) + en <= dg (Z.pos mp) + ep).
  { destruct (Z.eq_dec en ep) as [-> | Hne].
    - rewrite Z.sub_diag, Z.pow_0_r, Z.mul_1_r in Hval.
      rewrite !dg_pos. pose proof (Z.log2_le_mono _ _ Hval). lia.
    - pose proof (canonical_magnitude mn mp en ep Cn Cp ltac:(lia)). lia. }
  cbn [SFdiv xorb].
  destruct (div_core_spec mn mp en ep) as (l & -> & Hl & Hq & Hdig).
  set (e' := Z.min (fexp prec emax (dg (Z.pos mn) + en - (dg (Z.pos mp) + ep)))
               (en - ep)) in *.
  set (n' := Z.pos mn * 2 ^ (en - ep - e')) in *.
  assert (He' : e' <= -53) by (unfold e'; rewrite fexp_eq; lia).
  assert (Hs : 0 <= en - ep - e') by (unfold e'; lia).
  pose proof (pow2_pos _ Hs) as Hps.
  pose proof (pow2_pos (ep - en) ltac:(lia)) as Hpe.
  assert (Hone : Z.pos 4503599627370496 * 2 ^ (-52 - e') = 2 ^ (- e')).
  { change (Z.pos 4503599627370496) with (2 ^ 52).
    rewrite <- Z.pow_add_r by lia. f_equal. lia. }
  assert (Hn' : n' <= Z.pos mp * 2 ^ (- e')).
  { unfold n'. replace (- e') with ((ep - en) + (en - ep - e')) by lia.
    rewrite Z.pow_add_r by lia. nia. }
  pose proof (pow2_pos (- e') ltac:(lia)) as Hp'.
  pose proof (Z.div_mod n' (Z.pos mp) ltac:(lia)) as Hdm.
  pose proof (Z.mod_pos_bound n' (Z.pos mp) ltac:(lia)) as Hmod.
  assert (Hc1 : canonical 4503599627370496 (-52)) by reflexivity.
  assert (Hb1 : -52 <= emax - prec) by (unfold emax, prec; lia).
  assert (Hle1 : n' / Z.pos mp <= Z.pos 4503599627370496 * 2 ^ (-52 - e'))
    by (rewrite Hone; apply Z.div_le_upper_bound; lia).
  assert (Hlt1 : l <> loc_Exact ->
                 n' / Z.pos mp < Z.pos 4503599627370496 * 2 ^ (-52 - e')).
  { intros Hne. specialize (Hl Hne). rewrite Hone. nia. }
  exact (proj2 (proj2 (bra_le (n' / Z.pos mp) e' l 4503599627370496 (-52)
                         Hq Hdig Hc1 Hb1 ltac:(lia) Hle1 Hlt1))).
Qed.

(** ** Magnitudes, integers, quotients *)

Lemma binary_round_aux_abs (s : bool) (m e : Z) (l : location) :
  SFabs (binary_round_aux prec emax s m e l)
  = binary_round_aux prec emax false m e l.
Proof.
  unfold binary_round_aux.
  destruct (shr_fexp prec emax m e l) as [mrs e'].
  destruct (shr_fexp prec emax _ e' loc_Exact) as [mrs2 e2].
  destruct (shr_m mrs2); [reflexivity | | reflexivity].
  destruct (e2 <=? emax - prec); reflexivity.
Qed.

Lemma binary_round_abs (s : bool) (m : positive) (e : Z) :
  SFabs (binary_round prec emax s m e) = binary_round prec emax false m e.
Proof.
  unfold binary_round. destruct (shl_align m e _) as [mz ez].
  apply binary_round_aux_abs.
Qed.

(** A double whose magnitude is at most [a] is at least [-a]. *)
Lemma abs_le_neg (r : double) (q : positive) (ea : Z) :
  SFleb (SFabs r) (S754_finite false q ea) = true ->
  SFleb (S754_finite true q ea) r = true.
Proof.
  destruct r as [s|s| |s m e]; try discriminate; try reflexivity.
  destruct s; [|reflexivity].
  unfold SFleb, SFcompare, SFabs.
  rewrite (Z.compare_antisym e ea).
  change (Pos.compare_cont Eq q m) with (Pos.compare q m).
  change (Pos.compare_cont Eq m q) with (Pos.compare m q).
  rewrite (Pos.compare_antisym m q).
  destruct (e ?= ea); cbn [CompOpp]; try discriminate; try reflexivity.
  destruct (m ?= q)%positive; cbn [CompOpp]; try discriminate; reflexivity.
Qed.

Lemma nonneg_above_neg (r : double) (q : positive) (ea : Z) :
  nonneg r -> SFleb (S754_finite true q ea) r = true.
Proof.
  unfold nonneg. destruct r as [s|s| |s m e]; try discriminate; try reflexivity;
    destruct s; try discriminate; reflexivity.
Qed.

(** [q >= 0] gives [q - 1 >= -1], rounded. *)
Lemma sub_one_ge (q : double) :
  nonneg q -> SFleb (SFopp one) (SFsub prec emax q one) = true.
Proof.
  unfold nonneg. intros Hq.
  destruct q as [s|s| |s m e]; try discriminate Hq.
  - reflexivity.
  - destruct s; [discriminate Hq | reflexivity].
  - destruct s; [discriminate Hq|].
    unfold one. cbn [SFsub cond_Zopp SFopp negb].
    destruct (shl_align_spec m e (Z.min e (-52))) as (a & Ha & Hva).
    destruct (shl_align_spec 4503599627370496 (-52) (Z.min e (-52)))
      as (b & Hb & Hvb).
    replace (Z.min e (Z.min e (-52))) with (Z.min e (-52)) in Ha, Hva by lia.
    replace (Z.min (-52) (Z.min e (-52))) with (Z.min e (-52)) in Hb, Hvb by lia.
    rewrite Ha, Hb. cbn [fst].
    destruct (Z.pos a - Z.pos b) as [|d|d] eqn:Hd; cbn [binary_normalize].
    + reflexivity.
    + apply nonneg_above_neg, binary_round_nonneg.
    + apply abs_le_neg. rewrite binary_round_abs.
      assert (Hc1 : canonical 4503599627370496 (-52)) by reflexivity.
      assert (Hb1 : -52 <= emax - prec) by (unfold emax, prec; lia).
      apply (binary_round_le d (Z.min e (-52)) 4503599627370496 (-52) Hc1 Hb1);
        lia.
Qed.

Lemma nonneg_of_int (z : Z) : 0 <= z -> nonneg (of_int z).
Proof.
  intros Hz. unfold of_int. destruct z as [|p|p]; try lia.
  - reflexivity.
  - cbn [binary_normalize]. apply binary_round_nonneg.
Qed.

Lemma nonneg_div (x : double) (my : positive) (ey : Z) :
  nonneg x -> nonneg (SFdiv prec emax x (S754_finite false my ey)).
Proof.
  unfold nonneg. intros Hx.
  destruct x as [sx|sx| |sx mx ex]; try discriminate Hx;
    destruct sx; try discriminate Hx; try reflexivity.
  cbn [SFdiv xorb].
  destruct (div_core_spec mx my ex ey) as (l & -> & _ & Hq & Hdig).
  apply bra_nonneg; assumption.
Qed.

(** An integer below [2^53] converts exactly: its mantissa is shifted to 53
    digits. *)
Lemma of_int_exact (z : Z) :
  0 < z < 2 ^ 53 ->
  exists p,
    of_int z = S754_finite false p (dg z - 53)
    /\ Z.pos p = z * 2 ^ (53 - dg z).
Proof.
  intros Hz. destruct z as [|m|m]; try lia.
  pose proof (dg_positive (Z.pos m) ltac:(lia)) as Hd1.
  pose proof (dg_le_of_lt_pow (Z.pos m) 53 ltac:(lia) ltac:(lia) ltac:(lia))
    as Hd2.
  unfold of_int. cbn [binary_normalize].
  destruct (binary_round_aligned false m 0)
    as (mz & ez & -> & Hez & Hmz & Hdig & Hezv & Hdz).
  rewrite fexp_eq in Hezv.
  assert (Hez' : ez = dg (Z.pos m) - 53) by lia.
  destruct (bra_spec false (Z.pos mz) ez loc_Exact ltac:(lia) Hdig)
    as (m2 & m3 & e3 & Hm2 & He3 & Hm3 & Hm3pos & Hcan & ->).
  assert (He1 : fexp prec emax (dg (Z.pos mz) + ez) = ez)
    by (rewrite fexp_eq; lia).
  rewrite He1 in *. rewrite Z.sub_diag, Z.pow_0_r, Z.div_1_r in Hm2.
  assert (Hm2' : m2 = Z.pos mz).
  { destruct Hm2 as [H | [_ H]]; [exact H|].
    contradiction H. split; [reflexivity | apply Z.mod_1_r]. }
  rewrite Hm2' in Hm3. clear Hm2 Hm2'.
  assert (Hm3' : 0 < m3) by (pose proof (pow2_pos (e3 - ez) ltac:(lia)); nia).
  specialize (Hcan Hm3'). rewrite fexp_eq in Hcan.
  assert (Hd3 : dg m3 + (e3 - ez) = dg (Z.pos mz))
    by (rewrite <- Hm3; symmetry; apply dg_mul_pow2; lia).
  assert (He3' : e3 = ez) by lia.
  rewrite He3' in *. rewrite Z.sub_diag, Z.pow_0_r, Z.mul_1_r in Hm3.
  rewrite Hm3.
  exists mz. split.
  - destruct (Z.leb_spec ez (emax - prec)) as [_ | H];
      [rewrite Hez'; reflexivity | unfold emax, prec in H; lia].
  - rewrite Hmz. f_equal. f_equal. lia.
Qed.

(** Conversion of integers below [2^53] keeps their order. *)
Lemma of_int_le (w t : Z) :
  0 <= w <= t -> 0 < t < 2 ^ 53 ->
  exists q et,
    of_int t = S754_finite false q et
    /\ SFleb (of_int w) (S754_finite false q et) = true.
Proof.
  intros Hw Ht.
  destruct (of_int_exact t Ht) as (q & Et & Hq).
  exists q, (dg t - 53). split; [exact Et|].
  destruct (Z.eq_dec w 0) as [-> | Hw0]; [reflexivity|].
  destruct (of_int_exact w ltac:(lia)) as (p & Ep & Hp).
  rewrite Ep.
  pose proof (dg_positive w ltac:(lia)) as Hdw.
  pose proof (dg_positive t ltac:(lia)) as Hdt.
  pose proof (dg_le_of_lt_pow t 53 ltac:(lia) ltac:(lia) ltac:(lia)) as Hdt'.
  assert (Hmono : dg w <= dg t).
  { destruct w as [|pw|pw]; try lia. destruct t as [|pt|pt]; try lia.
    rewrite !dg_pos. pose proof (Z.log2_le_mono (Z.pos pw) (Z.pos pt)). lia. }
  unfold SFleb, SFcompare.
  destruct (Z.compare_spec (dg w - 53) (dg t - 53)) as [He | Hl | Hg];
    [|reflexivity|lia].
  assert (Hdd : dg w = dg t) by lia.
  change (Pos.compare_cont Eq p q) with (Pos.compare p q).
  assert (Hpq : Z.pos p <= Z.pos q).
  { rewrite Hp, Hq, Hdd.
    pose proof (pow2_pos (53 - dg t) ltac:(lia)). nia. }
  destruct (Pos.compare_spec p q); try reflexivity. lia.
Qed.

(** ** The drawdown of one update *)

Local Open Scope double_scope.

(** Below the high-water mark: [(peak - equity) / peak] is NaN or at most 1. *)
Lemma drawdown_below_peak (pk eq : double) :
  valid pk -> valid eq -> nonneg eq -> (eq <? pk) = true ->
  let dd := (pk - eq) / pk in
  is_nan dd = true \/ SFleb dd one = true.
Proof.
  unfold nonneg. intros Vp Ve Hn Hlt.
  change (SFltb eq pk = true) in Hlt.
  change (let dd := SFdiv prec emax (SFsub prec emax pk eq) pk in
          is_nan dd = true \/ SFleb dd one = true).
  destruct eq as [se|se| |se me ee]; try discriminate Hn.
  - (* equity is zero *)
    destruct pk as [sp|sp| |sp mp ep]; try discriminate Hlt.
    + destruct sp; try discriminate Hlt. left. reflexivity.
    + destruct sp; try discriminate Hlt. right.
      cbn [SFsub]. apply div_le_one; try assumption.
      apply leb_refl. reflexivity.
  - (* equity is infinite *)
    destruct se; try discriminate Hn.
    destruct pk as [sp|sp| |sp mp ep]; try discriminate Hlt;
      destruct sp; discriminate Hlt.
  - (* equity is positive and finite *)
    destruct se; try discriminate Hn.
    destruct pk as [sp|sp| |sp mp ep]; try discriminate Hlt.
    + destruct sp; try discriminate Hlt. left. reflexivity.
    + destruct sp; try discriminate Hlt.
      destruct (sub_le mp me ep ee Vp Ve Hlt) as (Vn & Nn & Ln).
      unfold nonneg in Nn.
      destruct (SFsub prec emax (S754_finite false mp ep)
                  (S754_finite false me ee)) as [sn|sn| |sn mn en].
      * right. reflexivity.
      * destruct sn; [discriminate Nn | discriminate Ln].
      * discriminate Nn.
      * destruct sn; [discriminate Nn|]. right.
        apply div_le_one; assumption.
Qed.

(** At the high-water mark: [(equity - equity) / equity] is NaN or zero. *)
Lemma drawdown_at_peak (eq : double) :
  let dd := (eq - eq) / eq in
  is_nan dd = true \/ SFleb dd one = true.
Proof.
  change (let dd := SFdiv prec emax (SFsub prec emax eq eq) eq in
          is_nan dd = true \/ SFleb dd one = true).
  destruct eq as [s|s| |s m e].
  - left. destruct s; reflexivity.
  - left. destruct s; reflexivity.
  - left. reflexivity.
  - right. rewrite sub_self. reflexivity.
Qed.

(** What the invariant of a run on doubles asks of a state. *)
Definition sound (st : State double) : Prop :=
  valid (cash st) /\ valid (pos st) /\ valid (peak st)
  /\ nonneg (cash st) /\ nonneg (pos st)
  /\ SFleb (maxdd st) one = true.

Lemma sound_update_mdd (st : State double) (price : double) :
  valid price -> (price >? d0) = true -> sound st ->
  sound (update_mdd st price).
Proof.
  intros Vprice Hprice (Vc & Vq & Vp & Nc & Nq & Hm).
  set (equity := cash st + pos st * price).
  assert (Ve : valid equity)
    by (apply valid_add; [exact Vc | apply valid_mul; assumption]).
  assert (Nprice : nonneg price) by (apply ltb_leb, Hprice).
  assert (Ne : is_nan equity = true \/ nonneg equity).
  { destruct (nonneg_mul (pos st) price Vq Vprice Nq Nprice) as [Hnan | Hnn].
    - left. unfold equity.
      change (is_nan (SFadd prec emax (cash st)
                        (SFmul prec emax (pos st) price)) = true).
      destruct (SFmul prec emax (pos st) price); try discriminate Hnan.
      destruct (cash st); reflexivity.
    - right. apply nonneg_add; assumption. }
  unfold sound, update_mdd. cbn [cash pos peak maxdd]. fold equity.
  split; [exact Vc|]. split; [exact Vq|].
  unfold maxd.
  destruct (peak st >? equity) eqn:Hgt.
  - split; [exact Vp|]. split; [exact Nc|]. split; [exact Nq|].
    destruct (peak st >? d0); [|exact Hm].
    destruct ((peak st - equity) / peak st >? maxdd st) eqn:Hdd; [|exact Hm].
    assert (Nn : nonneg equity).
    { destruct Ne as [Hnan | Hnn]; [|exact Hnn].
      destruct equity; try discriminate Hnan. discriminate Hgt. }
    destruct (drawdown_below_peak (peak st) equity Vp Ve Nn Hgt)
      as [Hnan | Hle]; [|exact Hle].
    destruct (ltb_notnan _ _ Hdd) as [_ Hnn]. congruence.
  - split; [exact Ve|]. split; [exact Nc|]. split; [exact Nq|].
    destruct (equity >? d0); [|exact Hm].
    destruct ((equity - equity) / equity >? maxdd st) eqn:Hdd; [|exact Hm].
    destruct (drawdown_at_peak equity) as [Hnan | Hle]; [|exact Hle].
    destruct (ltb_notnan _ _ Hdd) as [_ Hnn]. congruence.
Qed.

Lemma valid_clamp (x : double) : valid x -> valid (clamp_nonneg x).
Proof.
  intros Hx. unfold clamp_nonneg.
  destruct ((x <? d0) || disnan x); [reflexivity | exact Hx].
Qed.

Lemma valid_settle (x : double) : valid x -> valid (settle x).
Proof.
  intros Hx. unfold settle.
  destruct ((x <? d0) && (dfabs x <? lit 1 (10 ^ 6)));
    [reflexivity | exact Hx].
Qed.

Lemma sound_init : sound init_state.
Proof. repeat split. Qed.

Section Fills.

Variable P : Params double.
Hypothesis valid_fee : valid (fee_rate P).
Hypothesis valid_slip : valid (slip_bps P).

Ltac valid_step :=
  lazymatch goal with
  | |- valid (clamp_nonneg _) => apply valid_clamp
  | |- valid (settle _) => apply valid_settle
  | |- valid (dadd _ _) => apply valid_add
  | |- valid (dsub _ _) => apply valid_sub
  | |- valid (dmul _ _) => apply valid_mul
  | |- valid (ddiv _ _) => apply valid_div
  | |- valid (dfloor _) => apply valid_floor
  | |- valid (of_Z _) => apply valid_of_int
  | |- valid d1 => apply valid_of_int
  | |- valid d0 => apply valid_of_int
  | |- valid _ => assumption
  end.

Ltac valid_arith := repeat valid_step.

Lemma sound_sell (st : State double) (price : double) (won : double -> bool) :
  valid price -> sound st -> sound (sell P st price won).
Proof.
  intros Vprice (Vc & Vq & Vp & Nc & Nq & Hm).
  unfold sound, sell. cbn [cash pos peak maxdd].
  split; [valid_arith|]. split; [reflexivity|]. split; [exact Vp|].
  split; [exact (@clamp_nonneg_nonneg double ops _)|]. split; [reflexivity | exact Hm].
Qed.

Lemma sound_entered (st : State double) (price : double) :
  valid price -> sound st -> entry_executes P st price = true ->
  sound (entered P st price).
Proof.
  intros Vprice (Vc & Vq & Vp & Nc & Nq & Hm) He.
  destruct (entry_executes_defined P st price He) as [Hq _].
  unfold sound, entered. cbn [cash pos peak maxdd].
  split.
  { unfold entry_new_cash, entry_qty, entry_denom, entry_p_fill, lot_round,
      lit, d1.
    valid_arith. }
  split.
  { unfold entry_qty, entry_denom, entry_p_fill, lot_round, lit, d1.
    valid_arith. }
  split; [exact Vp|].
  split; [exact (@clamp_nonneg_nonneg double ops _)|].
  split; [apply ltb_leb, Hq | exact Hm].
Qed.

End Fills.

End Rounding.

(** ** Invariants of a run whose prices have a property *)

Section InvariantOn.

Context {D : Type} `{Double D}.
Local Open Scope double_scope.

Variable P : Params D.
Variable px : list D.
Variable Q : D -> Prop.
Variable Inv : State D -> Prop.

Hypothesis Q_nan : Q dnan.
Hypothesis Q_prices : Forall Q px.
Hypothesis Inv_init : Inv init_state.
Hypothesis Inv_sell : forall st price won,
  Q price -> Inv st -> Inv (sell P st price won).
Hypothesis Inv_enter : forall st price,
  Q price -> Inv st -> entry_executes P st price = true ->
  Inv (entered P st price).
Hypothesis Inv_mdd : forall st price,
  Q price -> (price >? d0) = true -> Inv st -> Inv (update_mdd st price).

(** Every price the loop reads has the property, the NaN read out of range
    included. *)
Lemma price_on (i : nat) : Q (nth i px dnan).
Proof.
  revert i. induction Q_prices as [|p l Hp Hl IH]; intros [|i]; simpl; auto.
Qed.

Lemma candle_obs_inv_on (f s : list D) (st : State D) (i : nat) :
  Inv st ->
  Forall Inv (candle_obs P px f s st i) /\ Inv (candle P px f s st i).
Proof.
  intros Hst. unfold candle, candle_obs.
  pose proof (price_on i) as Hq.
  destruct (nth i px dnan >? d0) eqn:Hp; simpl; [|auto].
  assert (H1 : Inv (risk_phase P st (nth i px dnan))).
  { destruct (risk_phase_cases P st (nth i px dnan)) as [-> | ->]; auto. }
  assert (H2 : Inv (signal_phase P (risk_phase P st (nth i px dnan))
                      (nth i px dnan) (long_entry f s i) (long_exit f s i))).
  { destruct (signal_phase_cases P (risk_phase P st (nth i px dnan))
                (nth i px dnan) (long_entry f s i) (long_exit f s i))
      as [-> | [[He ->] | ->]]; auto. }
  split; [|auto]. repeat constructor; auto.
Qed.

Lemma loop_obs_inv_on (f s : list D) (idx : list nat) (st : State D) :
  Inv st ->
  Forall Inv (loop_obs P px f s idx st)
  /\ Inv (fold_left (candle P px f s) idx st).
Proof.
  revert st. induction idx as [|i idx IH]; intros st Hst; simpl.
  - split; [constructor | exact Hst].
  - destruct (candle_obs_inv_on f s st i Hst) as [Ho Hc].
    destruct (IH _ Hc) as [Ho' Hc'].
    split; [apply Forall_app; split; assumption | exact Hc'].
Qed.

Lemma observations_inv_on : Forall Inv (observations P px).
Proof.
  unfold observations.
  destruct (loop_obs_inv_on (compute_sma px (fast P)) (compute_sma px (slow P))
              (seq 1 (length px - 1)) init_state Inv_init) as [Hobs Hloop].
  constructor; [exact Inv_init|].
  apply Forall_app. split; [exact Hobs|].
  constructor; [|constructor].
  unfold final_state, loop_state, run_loop.
  destruct (liquidate_cases P px
              (fold_left (candle P px (compute_sma px (fast P))
                            (compute_sma px (slow P)))
                 (seq 1 (length px - 1)) init_state)) as [-> | [won ->]];
    [exact Hloop|].
  apply Inv_sell; [apply price_on | exact Hloop].
Qed.

End InvariantOn.

(** On doubles, with well-formed prices, fee rate and slippage, every
    observation point of a run is sound: cash, position and high-water mark
    are well formed, cash and position are not negative, and the drawdown
    is at most 1. *)
Lemma sound_run (P : Params B64.double) (px : list B64.double) :
  Rounding.valid (fee_rate P) -> Rounding.valid (slip_bps P) ->
  Forall Rounding.valid px ->
  Forall Rounding.sound (observations P px).
Proof.
  intros Vfee Vslip Vpx.
  apply (observations_inv_on P px Rounding.valid Rounding.sound).
  - reflexivity.
  - exact Vpx.
  - exact Rounding.sound_init.
  - intros st price won. apply Rounding.sound_sell; assumption.
  - intros st price. apply Rounding.sound_entered; assumption.
  - intros st price. apply Rounding.sound_update_mdd.
Qed.

(** C7.  In every arithmetic the drawdown starts at zero, each observation
    point has a drawdown at least that of the one before, and the drawdown is
    never negative.  On doubles, for every input whose prices, fee rate and
    slippage are well-formed doubles (as every value the extension receives
    is), the drawdown is at most 1 at every observation point. *)
Theorem C7_max_drawdown_monotone_bounded :
  (forall (D : Type) (H : Double D) (P : Params D) (px : list D),
     maxdd (@init_state D H) = d0
     /\ chain (fun st st' => (maxdd st <=? maxdd st')%D = true)
          init_state (tl (observations P px))
     /\ Forall (fun st => (d0 <=? maxdd st)%D = true) (observations P px))
  /\ (forall (P : Params B64.double) (px : list B64.double),
        Rounding.valid (fee_rate P) -> Rounding.valid (slip_bps P) ->
        Forall Rounding.valid px ->
        Forall (fun st => (d0 <=? maxdd st)%D = true
                          /\ (maxdd st <=? d1)%D = true)
          (observations P px)).
Proof.
  split.
  - intros D H P px. split; [reflexivity|]. split.
    + exact (mdd_monotone_run P px).
    + exact (mdd_nonneg_run P px).
  - intros P px Vfee Vslip Vpx.
    pose proof (mdd_nonneg_run P px) as H0.
    pose proof (sound_run P px Vfee Vslip Vpx) as H1.
    rewrite Forall_forall in *. intros st Hst.
    split; [exact (H0 st Hst)|].
    destruct (H1 st Hst) as (_ & _ & _ & _ & _ & Hm). exact Hm.
Qed.

(** The run on 10, 9, 8, 12, 12 with a fee of 1%: the reported drawdown is
    between 0 and 1. *)
Lemma C7_witness :
  let r := report (final_state fee_params prices_held) in
  (d0 <=? max_drawdown r)%D = true /\ (max_drawdown r <=? d1)%D = true.
Proof.
  assert (Vfee : Rounding.valid (fee_rate fee_params)) by reflexivity.
  assert (Vslip : Rounding.valid (slip_bps fee_params)) by reflexivity.
  assert (Vpx : Forall Rounding.valid prices_held)
    by (repeat constructor).
  pose proof (proj2 C7_max_drawdown_monotone_bounded fee_params prices_held
                Vfee Vslip Vpx) as Hall.
  rewrite Forall_forall in Hall.
  apply (Hall (final_state fee_params prices_held)).
  unfold observations. right. apply in_or_app. right. left. reflexivity.
Defined.

(** * Further properties of the kernel *)

(** ** Order on doubles *)

Module B64Order.

Import B64.

Lemma compare_antisym (x y : double) (c : comparison) :
  SFcompare x y = Some c -> SFcompare y x = Some (CompOpp c).
Proof.
  destruct x as [sx|sx| |sx mx ex], y as [sy|sy| |sy my ey]; simpl;
    try discriminate; intros [= <-];
    try reflexivity;
    try (destruct sx; reflexivity);
    try (destruct sy; reflexivity);
    try (destruct sx, sy; reflexivity).
  f_equal.
  rewrite (Z.compare_antisym ex ey).
  assert (Hm : Pos.compare_cont Eq my mx
               = CompOpp (Pos.compare_cont Eq mx my))
    by (symmetry; apply (Pos.compare_cont_antisym mx my Eq)).
  rewrite Hm.
  destruct sx, sy; simpl; try reflexivity;
    destruct (ex ?= ey)%Z; simpl; try reflexivity;
    destruct (Pos.compare_cont Eq mx my); reflexivity.
Qed.

Lemma compare_defined (x y : double) :
  is_nan x = false -> is_nan y = false -> exists c, SFcompare x y = Some c.
Proof.
  destruct x, y; simpl; try discriminate; intros _ _; eexists; reflexivity.
Qed.

Lemma ltb_irrefl (x : double) : SFltb x x = false.
Proof.
  unfold SFltb. destruct (is_nan x) eqn:Hx.
  - destruct x; try discriminate. reflexivity.
  - rewrite (compare_refl x Hx). reflexivity.
Qed.

(** For two numbers, [!(x < y)] is [y <= x]. *)
Lemma leb_of_not_ltb (x y : double) :
  is_nan x = false -> is_nan y = false -> SFltb x y = false -> SFleb y x = true.
Proof.
  intros Hx Hy. destruct (compare_defined x y Hx Hy) as [c Hc].
  unfold SFltb, SFleb. rewrite Hc, (compare_antisym x y c Hc).
  destruct c; simpl; congruence.
Qed.

Lemma ltb_false_of_leb (x y : double) : SFleb x y = true -> SFltb y x = false.
Proof.
  unfold SFleb, SFltb. destruct (SFcompare x y) as [c|] eqn:Hc; [|discriminate].
  rewrite (compare_antisym x y c Hc). destruct c; simpl; congruence.
Qed.

Lemma leb_notnan (x y : double) :
  SFleb x y = true -> is_nan x = false /\ is_nan y = false.
Proof. unfold SFleb. destruct x, y; simpl; try discriminate; auto. Qed.

End B64Order.

(** ** Arguments: range clamps and the length test *)

Section Acceptance.

Context {D : Type} `{Double D}.

Lemma sanitize_windows (a : Params D) :
  fast (sanitize a) = Z.max (fast a) 1
  /\ slow (sanitize a) = Z.max (Z.max (fast a) 1) (slow a).
Proof.
  unfold sanitize. cbn [fast slow].
  destruct (Z.ltb_spec (fast a) 1) as [Hf|Hf].
  - replace (Z.max (fast a) 1) with 1%Z by lia.
    destruct (Z.ltb_spec (slow a) 1); split; lia.
  - replace (Z.max (fast a) 1) with (fast a) by lia.
    destruct (Z.ltb_spec (slow a) (fast a)); split; lia.
Qed.

(** X1.  For window arguments that fit an [int], let
    [s = max(max(fast,1), slow)] be the slow window after the clamps of
    lines 36-37.  When [s + 2] fits an [int] as well, [ma_cross_backtest]
    fails with "not enough data" exactly when the series has fewer than
    [s + 2] prices, and returns the report of the run otherwise; the bound
    is at least 3, so an empty series, or one of one or two prices, is
    refused.  When [s + 2] does not fit ([slow >= 2^31 - 2]), the sum of
    line 46 wraps to a negative number and every series is accepted. *)
Theorem X1_not_enough_data (px : list D) (a : Params D) :
  (- 2 ^ 31 <= fast a < 2 ^ 31)%Z ->
  (- 2 ^ 31 <= slow a < 2 ^ 31)%Z ->
  let s := Z.max (Z.max (fast a) 1) (slow a) in
  (3 <= s + 2)%Z
  /\ ((s + 2 < 2 ^ 31)%Z ->
      ma_cross_backtest px a
      = if (Z.of_nat (length px) <? s + 2)%Z then inl NotEnoughData
        else inr (report (final_state (sanitize a) px)))
  /\ ((2 ^ 31 <= s + 2)%Z ->
      ma_cross_backtest px a = inr (report (final_state (sanitize a) px))).
Proof.
  intros Hf Hs s. split; [unfold s; lia|].
  destruct (sanitize_windows a) as [_ Hslow]. fold s in Hslow.
  unfold ma_cross_backtest. rewrite Hslow. split; intros Hfit.
  - rewrite int_wrap_small by (unfold s in *; lia). reflexivity.
  - pose proof (int_wrap_overflow (s + 2)) as Hneg.
    destruct (Z.ltb_spec (Z.of_nat (length px)) (int_wrap (s + 2)));
      [unfold s in *; lia | reflexivity].
Qed.

End Acceptance.

(** Three prices with windows 1 and 2 are refused; five prices with a slow
    window of [2^31 - 1] are accepted. *)
Lemma X1_witness :
  ma_cross_backtest (map dz [10; 9; 8]%Z) plain_params = inl NotEnoughData
  /\ ma_cross_backtest (map dz [10; 9; 8; 12; 12]%Z)
       (mk_params 1 (2 ^ 31 - 1) (dz 0) (dz 0) (dz (-1)) (dz (-1)))
     = inr (report (final_state
                      (sanitize (mk_params 1 (2 ^ 31 - 1) (dz 0) (dz 0)
                                   (dz (-1)) (dz (-1))))
                      (map dz [10; 9; 8; 12; 12]%Z))).
Proof.
  split.
  - destruct (X1_not_enough_data (map dz [10; 9; 8]%Z) plain_params)
      as (_ & Hfit & _); [simpl; lia | simpl; lia |].
    rewrite Hfit; [reflexivity | simpl; lia].
  - destruct (X1_not_enough_data (map dz [10; 9; 8; 12; 12]%Z)
                (mk_params 1 (2 ^ 31 - 1) (dz 0) (dz 0) (dz (-1)) (dz (-1))))
      as (_ & _ & Hwrap); [simpl; lia | simpl; lia |].
    apply Hwrap. simpl. lia.
Defined.

Module SanitizeB64.

Import B64 B64Order.

(** The two-sided clamp of lines 38 and 39:
    [if(x<lo) x=lo; if(x>hi) x=hi;]. *)
Definition range_clamp (lo hi x : double) : double :=
  let x := if SFltb x lo then lo else x in
  if SFltb hi x then hi else x.

Lemma sanitize_fee (a : Params double) :
  fee_rate (sanitize a) = range_clamp (of_int 0) (lit 5 100) (fee_rate a).
Proof. reflexivity. Qed.

Lemma sanitize_slip (a : Params double) :
  slip_bps (sanitize a) = range_clamp (of_int 0) (of_int 1000) (slip_bps a).
Proof. reflexivity. Qed.

(** A NaN goes through the clamp; a number comes out within the bounds;
    clamping twice is clamping once. *)
Lemma range_clamp_spec (lo hi x : double) :
  SFleb lo hi = true ->
  ((is_nan x = true /\ range_clamp lo hi x = x)
   \/ (is_nan x = false
       /\ SFleb lo (range_clamp lo hi x) = true
       /\ SFleb (range_clamp lo hi x) hi = true))
  /\ range_clamp lo hi (range_clamp lo hi x) = range_clamp lo hi x.
Proof.
  intros Hlh.
  destruct (leb_notnan lo hi Hlh) as [Hlo Hhi].
  pose proof (ltb_false_of_leb lo hi Hlh) as Hhl.
  unfold range_clamp.
  destruct (is_nan x) eqn:Hx.
  - destruct x; try discriminate.
    assert (H1 : SFltb S754_nan lo = false) by (destruct lo; reflexivity).
    assert (H2 : SFltb hi S754_nan = false) by (destruct hi; reflexivity).
    rewrite H1, H2, H1, H2. split; [left; split; reflexivity | reflexivity].
  - destruct (SFltb x lo) eqn:Hxl.
    + rewrite Hhl, (ltb_irrefl lo), Hhl.
      split; [right | reflexivity].
      split; [reflexivity|]. split; [apply leb_refl, Hlo | exact Hlh].
    + destruct (SFltb hi x) eqn:Hhx.
      * rewrite Hhl, (ltb_irrefl hi).
        split; [right | reflexivity].
        split; [reflexivity|]. split; [exact Hlh | apply leb_refl, Hhi].
      * rewrite Hxl, Hhx. split; [right | reflexivity].
        split; [reflexivity|].
        split; apply leb_of_not_ltb; assumption.
Qed.

End SanitizeB64.

(** X2.  On doubles, the range clamps of lines 36-39 leave [fast >= 1] and
    [slow >= fast]; a fee rate that is a number ends in [0, 0.05] and a
    slippage that is a number in [0, 1000], while a NaN passes both clamps
    unchanged; take-profit and stop-loss are not touched; and clamping
    already clamped arguments changes nothing. *)
Theorem X2_sanitize_ranges (a : Params B64.double) :
  let P := sanitize a in
  (1 <= fast P <= slow P)%Z
  /\ ((B64.is_nan (fee_rate a) = true /\ fee_rate P = fee_rate a)
      \/ (B64.is_nan (fee_rate a) = false
          /\ SFleb (dz 0) (fee_rate P) = true
          /\ SFleb (fee_rate P) (lit 5 100) = true))
  /\ ((B64.is_nan (slip_bps a) = true /\ slip_bps P = slip_bps a)
      \/ (B64.is_nan (slip_bps a) = false
          /\ SFleb (dz 0) (slip_bps P) = true
          /\ SFleb (slip_bps P) (dz 1000) = true))
  /\ tp P = tp a /\ sl P = sl a
  /\ sanitize P = P.
Proof.
  intros P.
  destruct (sanitize_windows a) as [Hf Hs]. fold P in Hf, Hs.
  assert (Hfee : SFleb (B64.of_int 0) (@lit B64.double _ 5 100) = true)
    by (vm_compute; reflexivity).
  assert (Hslip : SFleb (B64.of_int 0) (B64.of_int 1000) = true)
    by (vm_compute; reflexivity).
  destruct (SanitizeB64.range_clamp_spec _ _ (fee_rate a) Hfee) as [Hf1 Hf2].
  destruct (SanitizeB64.range_clamp_spec _ _ (slip_bps a) Hslip) as [Hs1 Hs2].
  rewrite <- (SanitizeB64.sanitize_fee a) in Hf1, Hf2.
  rewrite <- (SanitizeB64.sanitize_slip a) in Hs1, Hs2.
  fold P in Hf1, Hf2, Hs1, Hs2.
  split; [lia|]. split; [exact Hf1|]. split; [exact Hs1|].
  split; [reflexivity|]. split; [reflexivity|].
  destruct (sanitize_windows P) as [Hf' Hs'].
  assert (E1 : fast (sanitize P) = fast P) by lia.
  assert (E2 : slow (sanitize P) = slow P) by lia.
  assert (E3 : fee_rate (sanitize P) = fee_rate P)
    by (rewrite SanitizeB64.sanitize_fee; exact Hf2).
  assert (E4 : slip_bps (sanitize P) = slip_bps P)
    by (rewrite SanitizeB64.sanitize_slip; exact Hs2).
  assert (E5 : tp (sanitize P) = tp P) by reflexivity.
  assert (E6 : sl (sanitize P) = sl P) by reflexivity.
  destruct (sanitize P) as [f1 s1 fe1 sl1 tp1 st1], P as [f2 s2 fe2 sl2 tp2 st2].
  cbn in E1, E2, E3, E4, E5, E6. congruence.
Qed.

(** ** Transitions of the position *)

Section Transitions.

Context {D : Type} `{Double D}.
Local Open Scope double_scope.

(** What can happen between one observation point and the next: nothing to
    the account ([tr_hold]; only the high-water mark and the drawdown may
    move), a position opened from a flat state ([tr_open]), or the open
    position sold ([tr_close]). *)
Inductive transition (st st' : State D) : Prop :=
| tr_hold :
    cash st' = cash st -> pos st' = pos st -> entry st' = entry st ->
    trades st' = trades st -> wins st' = wins st ->
    transition st st'
| tr_open :
    (pos st <=? d0) = true ->
    (pos st' >? d0) = true -> disnan (entry st') = false ->
    trades st' = trades st -> wins st' = wins st ->
    peak st' = peak st -> maxdd st' = maxdd st ->
    transition st st'
| tr_close :
    (pos st >? d0) = true ->
    pos st' = d0 -> entry st' = dnan ->
    trades st' = (trades st + 1)%Z ->
    (wins st' = wins st \/ wins st' = (wins st + 1)%Z) ->
    peak st' = peak st -> maxdd st' = maxdd st ->
    transition st st'.

Lemma transition_refl (st : State D) : transition st st.
Proof. apply tr_hold; reflexivity. Qed.

Lemma sell_transition (P : Params D) (st : State D) (price : D)
  (won : D -> bool) :
  (pos st >? d0) = true -> transition st (sell P st price won).
Proof.
  intros Hpos. apply tr_close; try reflexivity; try exact Hpos.
  unfold sell. cbn [wins]. destruct (won _); auto.
Qed.

Lemma risk_hit_long (P : Params D) (st : State D) (price : D) :
  risk_hit P st price = true -> (pos st >? d0) = true.
Proof.
  unfold risk_hit. destruct (pos st >? d0); [reflexivity | discriminate].
Qed.

Lemma risk_phase_transition (P : Params D) (st : State D) (price : D) :
  transition st (risk_phase P st price).
Proof.
  unfold risk_phase. destruct (risk_hit P st price) eqn:Hhit.
  - apply sell_transition. apply (risk_hit_long P st price Hhit).
  - apply transition_refl.
Qed.

Lemma signal_phase_transition (P : Params D) (st : State D) (price : D)
  (le lx : bool) :
  transition st (signal_phase P st price le lx).
Proof.
  unfold signal_phase, signal_action.
  destruct (le && (pos st <=? d0)) eqn:Hent.
  - apply andb_true_iff in Hent. destruct Hent as [_ Hflat].
    rewrite entry_fill_cases.
    destruct (entry_executes P st price) eqn:He; [|apply transition_refl].
    destruct (entry_executes_defined P st price He) as [Hq Hn].
    apply tr_open; try reflexivity; assumption.
  - destruct (lx && (pos st >? d0)) eqn:Hex; [|apply transition_refl].
    apply andb_true_iff in Hex. destruct Hex as [_ Hlong].
    apply sell_transition, Hlong.
Qed.

Lemma update_mdd_transition (st : State D) (price : D) :
  transition st (update_mdd st price).
Proof. apply tr_hold; reflexivity. Qed.

Lemma liquidate_transition (P : Params D) (px : list D) (st : State D) :
  transition st (liquidate P px st).
Proof.
  unfold liquidate, liquidation_fill.
  destruct (pos st >? d0) eqn:Hpos; [|apply transition_refl].
  destruct (nth (length px - 1) px dnan >? d0); [|apply transition_refl].
  apply sell_transition, Hpos.
Qed.

Lemma transitions_run (P : Params D) (px : list D) :
  chain transition init_state (tl (observations P px)).
Proof.
  unfold observations. simpl tl.
  destruct (loop_obs_chain P px (compute_sma px (fast P))
              (compute_sma px (slow P)) (fun _ => True) transition
              (fun st price _ => conj I (risk_phase_transition P st price))
              (fun st price le lx _ =>
                 conj I (signal_phase_transition P st price le lx))
              (fun st price _ _ => conj I (update_mdd_transition st price))
              (seq 1 (length px - 1)) init_state I) as [Hobs _].
  apply chain_app; [exact Hobs|].
  rewrite <- loop_obs_last. simpl. split; [|exact I].
  apply liquidate_transition.
Qed.

(** A property of the first state that every transition keeps holds at all
    the states of the chain. *)
Lemma chain_invariant {A : Type} (R : A -> A -> Prop) (Inv : A -> Prop) :
  (forall a b, Inv a -> R a b -> Inv b) ->
  forall (l : list A) (x : A), Inv x -> chain R x l -> Forall Inv l.
Proof.
  intros Hstep. induction l as [|y l IH]; intros x Hx Hc; [constructor|].
  destruct Hc as [Hxy Hc]. constructor; [apply (Hstep x y Hx Hxy)|].
  apply (IH y); [apply (Hstep x y Hx Hxy) | exact Hc].
Qed.

(** Does the step from [st] to [st'] close a position? *)
Definition closes (st st' : State D) : bool :=
  (pos st >? d0) && negb (pos st' >? d0).

(** The number of closing steps along [x :: l]. *)
Fixpoint closings (x : State D) (l : list (State D)) : Z :=
  match l with
  | [] => 0
  | y :: l' => ((if closes x y then 1 else 0) + closings y l')%Z
  end.

Lemma transition_trades (st st' : State D) :
  transition st st' ->
  trades st' = (trades st + (if closes st st' then 1 else 0))%Z.
Proof.
  unfold closes. intros [Hc Hp He Ht Hw | Hf Hp He Ht Hw _ _ | Hl Hp He Ht Hw _ _].
  - rewrite Hp, Ht. destruct (pos st >? d0); simpl; lia.
  - rewrite Hp, Ht, andb_false_r. lia.
  - rewrite Hl, Hp, Ht. unfold d0. rewrite dlt_zero_zero. reflexivity.
Qed.

Lemma chain_trades (l : list (State D)) (x : State D) :
  chain transition x l -> trades (last l x) = (trades x + closings x l)%Z.
Proof.
  revert x. induction l as [|y l IH]; intros x Hc.
  - simpl. lia.
  - destruct Hc as [Hxy Hc].
    replace (last (y :: l) x) with (last l y)
      by (destruct l as [|z l']; [reflexivity|];
          exact (last_cons_default l' z y x)).
    rewrite (IH y Hc), (transition_trades x y Hxy). simpl. lia.
Qed.

Lemma counters_run (P : Params D) (px : list D) :
  Forall (fun st => (0 <= wins st <= trades st)%Z) (observations P px).
Proof.
  pose proof (transitions_run P px) as Hc.
  unfold observations in *. simpl tl in Hc.
  constructor; [simpl; lia|].
  apply (chain_invariant transition
           (fun st => (0 <= wins st <= trades st)%Z)) with (x := init_state);
    [|simpl; lia | exact Hc].
  intros a b Ha [_ _ _ Ht Hw | _ _ _ Ht Hw _ _ | _ _ _ Ht Hw _ _];
    rewrite Ht; destruct Hw; lia.
Qed.

Lemma final_state_observed (P : Params D) (px : list D) :
  In (final_state P px) (observations P px).
Proof.
  unfold observations. right. apply in_or_app. right. left. reflexivity.
Qed.

(** X3.  Between one observation point of a run and the next, either the
    account is untouched (cash, position, entry price and both counters), or
    a position is opened, from a state whose position is [<= 0], with a
    positive quantity and a defined entry price and no change to the
    counters, or the open position is sold whole: position to zero, entry
    price to NaN, one trade counted and at most one win.  So a position is
    never added to, never reduced in part, and never sold when there is
    none. *)
Theorem X3_position_transitions (P : Params D) (px : list D) :
  chain transition init_state (tl (observations P px)).
Proof. exact (transitions_run P px). Qed.

(** X4.  At every observation point [0 <= wins <= trades]; and the trade
    count reported is the number of steps of the run at which a positive
    position became non-positive. *)
Theorem X4_trades_count_closings (P : Params D) (px : list D) :
  Forall (fun st => (0 <= wins st <= trades st)%Z) (observations P px)
  /\ n_trades (report (final_state P px))
     = closings init_state (tl (observations P px)).
Proof.
  pose proof (transitions_run P px) as Hc. split.
  - exact (counters_run P px).
  - pose proof (chain_trades _ _ Hc) as Ht.
    unfold observations in *. simpl tl in *.
    rewrite last_last in Ht. simpl in Ht. exact Ht.
Qed.

(** Flat, or long with a defined entry price. *)
Definition flat_or_long (st : State D) : Prop :=
  (pos st = d0 /\ entry st = dnan)
  \/ ((pos st >? d0) = true /\ disnan (entry st) = false).

Lemma flat_or_long_loop (P : Params D) (px : list D) :
  flat_or_long (loop_state P px).
Proof.
  unfold loop_state, run_loop.
  apply (loop_obs_inv P px _ _ flat_or_long).
  - intros st price Hst.
    destruct (risk_phase_cases P st price) as [-> | ->];
      [exact Hst | left; split; reflexivity].
  - intros st price le lx Hst.
    destruct (signal_phase_cases P st price le lx) as [-> | [[He ->] | ->]].
    + exact Hst.
    + right. apply (entry_executes_defined P st price He).
    + left; split; reflexivity.
  - intros st price _ Hst. exact Hst.
  - left; split; reflexivity.
Qed.

(** X5.  A run ends flat (position zero, entry price NaN), unless a position
    is open after the last candle and the last price is not positive: then
    the forced liquidation does nothing and the final state is the state the
    loop left. *)
Theorem X5_final_state_flat_or_unsold (P : Params D) (px : list D) :
  (pos (final_state P px) = d0 /\ entry (final_state P px) = dnan)
  \/ ((pos (loop_state P px) >? d0) = true
      /\ (nth (length px - 1) px dnan >? d0) = false
      /\ final_state P px = loop_state P px).
Proof.
  unfold final_state, liquidate.
  destruct (pos (loop_state P px) >? d0) eqn:Hpos.
  - destruct (nth (length px - 1) px dnan >? d0) eqn:Hlast.
    + left. split; reflexivity.
    + right. repeat split; reflexivity.
  - left. destruct (flat_or_long_loop P px) as [Hflat | [Hlong _]].
    + exact Hflat.
    + rewrite Hlong in Hpos. discriminate.
Qed.

End Transitions.

(** ** Runs without an entry signal, on doubles *)

Module IdleB64.

Import B64 B64Order.

(** The account as it starts, with a high-water mark that is 10000 or NaN. *)
Definition idle (st : State double) : Prop :=
  cash st = dz 10000 /\ pos st = dz 0 /\ entry st = S754_nan
  /\ trades st = 0%Z /\ wins st = 0%Z /\ maxdd st = dz 0
  /\ (peak st = dz 10000 \/ peak st = S754_nan).

(** What is reported for an idle account. *)
Definition idle_report : Result double :=
  {| final_equity := dz 10000;
     total_return := dz 0;
     max_drawdown := dz 0;
     n_trades := 0;
     win_rate := dz 0 |}.

Lemma idle_init : idle init_state.
Proof. repeat split. left. reflexivity. Qed.

Lemma idle_candle (P : Params double) (px f s : list double)
  (st : State double) (i : nat) :
  long_entry f s i = false -> idle st -> idle (candle P px f s st i).
Proof.
  intros Hle Hst. unfold candle. cbv zeta.
  generalize (nth i px dnan). intros price.
  destruct (negb (price >? d0)%D) eqn:Hp; [exact Hst|].
  apply negb_false_iff in Hp.
  destruct st as [c q e pk md t w].
  destruct Hst as (Hc & Hq & He & Ht & Hw & Hmd & Hpk).
  cbn in Hc, Hq, He, Ht, Hw, Hmd, Hpk. subst c q e t w md.
  rewrite Hle.
  destruct (long_exit f s i);
    destruct price as [sp|sp| |sp mp ep]; try discriminate Hp;
    destruct sp; try discriminate Hp;
    destruct Hpk as [-> | ->]; vm_compute; repeat split; auto.
Qed.

Lemma idle_loop (P : Params double) (px f s : list double) (idx : list nat)
  (st : State double) :
  (forall i, In i idx -> long_entry f s i = false) ->
  idle st -> idle (fold_left (candle P px f s) idx st).
Proof.
  revert st. induction idx as [|i idx IH]; intros st Hsig Hst; [exact Hst|].
  simpl. apply IH.
  - intros j Hj. apply Hsig. right. exact Hj.
  - apply idle_candle; [apply Hsig; left; reflexivity | exact Hst].
Qed.

Lemma idle_report_of (P : Params double) (px : list double) (st : State double) :
  idle st -> report (liquidate P px st) = idle_report.
Proof.
  destruct st as [c q e pk md t w].
  intros (Hc & Hq & He & Ht & Hw & Hmd & Hpk).
  cbn in Hc, Hq, He, Ht, Hw, Hmd, Hpk. subst c q e t w md.
  destruct Hpk as [-> | ->]; vm_compute; reflexivity.
Qed.

Lemma idle_backtest (px : list double) (a : Params double) :
  (slow (sanitize a) + 2 <= Z.of_nat (length px))%Z ->
  (forall i, (1 <= i < length px)%nat ->
     long_entry (compute_sma px (fast (sanitize a)))
       (compute_sma px (slow (sanitize a))) i = false) ->
  ma_cross_backtest px a = inr idle_report.
Proof.
  intros Hn Hsig.
  rewrite (ma_cross_backtest_returns px a Hn). f_equal.
  unfold final_state. apply idle_report_of.
  unfold loop_state, run_loop. apply idle_loop; [|apply idle_init].
  intros i Hi. apply in_seq in Hi. apply Hsig. lia.
Qed.

(** With one window for both averages no signal is ever set. *)
Lemma same_average_no_signal (x : list double) (i : nat) (up : bool) :
  crossing x x i up = false.
Proof.
  unfold crossing.
  change (@dlt double ops) with SFltb.
  rewrite (ltb_irrefl (nth i x dnan)).
  destruct up; rewrite !andb_false_r; reflexivity.
Qed.

End IdleB64.

(** X6.  On doubles: when the entry signal is set at no index of an accepted
    series, nothing is ever bought, and the report is a final equity of
    10000, a total return of 0, a drawdown of 0, no trade and a win rate of
    0, whatever the prices (infinite ones included) and the other
    arguments. *)
Theorem X6_no_entry_signal_idle (px : list B64.double) (a : Params B64.double) :
  (slow (sanitize a) + 2 <= Z.of_nat (length px))%Z ->
  (forall i, (1 <= i < length px)%nat ->
     long_entry (compute_sma px (fast (sanitize a)))
       (compute_sma px (slow (sanitize a))) i = false) ->
  ma_cross_backtest px a
  = inr {| final_equity := dz 10000; total_return := dz 0;
           max_drawdown := dz 0; n_trades := 0; win_rate := dz 0 |}.
Proof. exact (IdleB64.idle_backtest px a). Qed.

(** Falling prices, windows 1 and 2: the fast average stays below the slow
    one. *)
Definition prices_falling : list B64.double := map dz [12; 11; 10; 9]%Z.

Lemma X6_witness :
  ma_cross_backtest prices_falling plain_params
  = inr {| final_equity := dz 10000; total_return := dz 0;
           max_drawdown := dz 0; n_trades := 0; win_rate := dz 0 |}.
Proof.
  apply (X6_no_entry_signal_idle prices_falling plain_params).
  - vm_compute. discriminate.
  - intros i Hi. simpl in Hi.
    destruct i as [|[|[|[|i]]]]; try lia; vm_compute; reflexivity.
Defined.

(** X7.  On doubles: when [slow <= max(fast, 1)], the clamp of line 37 makes
    the two windows equal, the two averages are the same series, no signal is
    ever set, and every accepted series gets the idle report: final equity
    10000, return 0, drawdown 0, no trade. *)
Theorem X7_equal_windows_never_trade (px : list B64.double)
  (a : Params B64.double) :
  (slow a <= Z.max (fast a) 1)%Z ->
  (Z.max (fast a) 1 + 2 <= Z.of_nat (length px))%Z ->
  ma_cross_backtest px a
  = inr {| final_equity := dz 10000; total_return := dz 0;
           max_drawdown := dz 0; n_trades := 0; win_rate := dz 0 |}.
Proof.
  intros Hs Hn. destruct (sanitize_windows a) as [Hf Hsl].
  assert (Heq : slow (sanitize a) = fast (sanitize a)) by lia.
  apply IdleB64.idle_backtest; [lia|].
  intros i _. rewrite Heq. apply IdleB64.same_average_no_signal.
Qed.

(** Fast window 5, slow window 3, on prices that would cross with windows 1
    and 2. *)
Lemma X7_witness :
  ma_cross_backtest (map dz [10; 9; 8; 12; 12; 30; 2]%Z)
    (mk_params 5 3 (dz 0) (dz 0) (dz (-1)) (dz (-1)))
  = inr {| final_equity := dz 10000; total_return := dz 0;
           max_drawdown := dz 0; n_trades := 0; win_rate := dz 0 |}.
Proof.
  apply X7_equal_windows_never_trade; vm_compute; discriminate.
Defined.

(** ** A window longer than the series; the maximum of two doubles *)

(** X8.  When the window is longer than the series, every entry of the
    average is undefined (and the average of the empty series is empty). *)
Theorem X8_window_longer_than_series {D : Type} `{Double D}
  (x : list D) (w : Z) :
  (Z.of_nat (length x) < w)%Z ->
  compute_sma x w = repeat dnan (length x).
Proof.
  intros Hw.
  apply (nth_ext _ _ dnan dnan).
  - rewrite compute_sma_length, repeat_length. reflexivity.
  - intros i Hi. rewrite compute_sma_length in Hi.
    rewrite nth_repeat. apply compute_sma_undefined. lia.
Qed.

Lemma X8_witness :
  compute_sma (map dz [10; 9]%Z) 3 = [S754_nan; S754_nan]
  /\ compute_sma (@nil B64.double) 1 = [].
Proof.
  split.
  - exact (X8_window_longer_than_series (map dz [10; 9]%Z) 3 eq_refl).
  - exact (X8_window_longer_than_series (@nil B64.double) 1 eq_refl).
Defined.

(** X9.  On doubles, [maxd a b] is [b] as soon as one of the two is NaN: a
    NaN equity makes the high-water mark NaN, and a NaN mark is replaced by
    the next equity.  When both are numbers it is one of them and is at
    least both. *)
Theorem X9_maxd_binary64 (a b : B64.double) :
  (B64.is_nan a || B64.is_nan b = true /\ maxd a b = b)
  \/ (B64.is_nan a = false /\ B64.is_nan b = false
      /\ (maxd a b = a \/ maxd a b = b)
      /\ SFleb a (maxd a b) = true
      /\ SFleb b (maxd a b) = true).
Proof.
  unfold maxd. change (@dlt B64.double B64.ops) with SFltb.
  destruct (B64.is_nan a) eqn:Ha; [left|].
  - destruct a; try discriminate. split; [reflexivity|].
    destruct b; reflexivity.
  - destruct (B64.is_nan b) eqn:Hb; [left|right].
    + destruct b; try discriminate. split; [reflexivity|].
      destruct a; reflexivity.
    + split; [reflexivity|]. split; [reflexivity|].
      destruct (SFltb b a) eqn:Hba.
      * split; [left; reflexivity|].
        split; [apply B64.leb_refl, Ha | apply B64.ltb_leb, Hba].
      * split; [right; reflexivity|].
        split; [apply B64Order.leb_of_not_ltb; assumption
               | apply B64.leb_refl, Hb].
Qed.

(** On doubles a constant series can trade: at the constant price 99.99 the
    running sums of the windows 3 and 5 round differently, the averages
    cross, and one round trip is made at a loss. *)
Example constant_series_trades_binary64 :
  match ma_cross_backtest (repeat (lit 9999 100) 12)
          (mk_params 3 5 (lit 4 10000) (dz 1) (dz (-1)) (dz (-1))) with
  | inr r => n_trades r = 1%Z /\ (final_equity r <? dz 10000)%D = true
  | inl _ => False
  end.
Proof. vm_compute. split; reflexivity. Qed.

(** ** A NaN price and the moving average, on doubles *)

Module NanB64.

Import B64.

Lemma sma_loop_nan_sum (x : list double) (w : Z) (rest : list double)
  (i : nat) (s : double) (m : nat) :
  is_nan s = true -> (m < length rest)%nat ->
  is_nan (nth m (sma_loop x w rest i s) S754_nan) = true.
Proof.
  revert i s m. induction rest as [|xi rest IH]; intros i s m Hs Hm;
    [simpl in Hm; lia|].
  destruct s; try discriminate Hs.
  cbn [sma_loop].
  change (@dadd double ops S754_nan xi) with S754_nan.
  assert (Hsub : forall y, @dsub double ops S754_nan y = S754_nan)
    by reflexivity.
  assert (Hs' : (if (w <=? Z.of_nat i)%Z
                 then @dsub double ops S754_nan
                        (nth (i - Z.to_nat w) x dnan)
                 else S754_nan) = S754_nan)
    by (destruct (w <=? Z.of_nat i)%Z; reflexivity).
  rewrite Hs'.
  destruct m as [|m]; cbn [nth].
  - destruct (w <=? Z.of_nat i + 1)%Z; reflexivity.
  - apply IH; [reflexivity | simpl in Hm; lia].
Qed.

Lemma sma_loop_nan_price (x : list double) (w : Z) (rest : list double)
  (i : nat) (s : double) (k m : nat) :
  is_nan (nth k rest S754_nan) = true ->
  (k <= m < length rest)%nat ->
  is_nan (nth m (sma_loop x w rest i s) S754_nan) = true.
Proof.
  revert i s k m. induction rest as [|xi rest IH]; intros i s k m Hk Hm;
    [simpl in Hm; lia|].
  destruct k as [|k].
  - cbn [nth] in Hk. destruct xi; try discriminate Hk.
    assert (Hadd : @dadd double ops s S754_nan = S754_nan)
      by (destruct s; reflexivity).
    cbn [sma_loop]. rewrite Hadd.
    assert (Hs' : (if (w <=? Z.of_nat i)%Z
                   then @dsub double ops S754_nan
                          (nth (i - Z.to_nat w) x dnan)
                   else S754_nan) = S754_nan)
      by (destruct (w <=? Z.of_nat i)%Z; reflexivity).
    rewrite Hs'.
    destruct m as [|m]; cbn [nth].
    + destruct (w <=? Z.of_nat i + 1)%Z; reflexivity.
    + apply sma_loop_nan_sum; [reflexivity | simpl in Hm; lia].
  - destruct m as [|m]; [lia|].
    cbn [sma_loop nth]. cbn [nth] in Hk.
    apply (IH _ _ k m Hk). simpl in Hm. lia.
Qed.

Lemma compute_sma_nan_price (x : list double) (w : Z) (k m : nat) :
  (2 <= w)%Z ->
  is_nan (nth k x S754_nan) = true ->
  (k <= m < length x)%nat ->
  is_nan (nth m (compute_sma x w) S754_nan) = true.
Proof.
  intros Hw Hk Hm. unfold compute_sma.
  destruct (Z.leb_spec w 1); [lia|].
  apply (sma_loop_nan_price x w x 0 d0 k m Hk Hm).
Qed.

Lemma crossing_nan_slow (f s : list double) (i : nat) (up : bool) :
  is_nan (nth i s S754_nan) = true -> crossing f s i up = false.
Proof.
  intros Hs. unfold crossing.
  change (@disnan double ops) with is_nan.
  change (@dnan double ops) with S754_nan.
  rewrite Hs. cbn [negb]. rewrite andb_false_r. reflexivity.
Qed.

End NanB64.

(** X14.  On doubles, a NaN price never leaves the running sum of a window
    of 2 or more: from the index of the NaN to the end of the series every
    entry of the average is NaN.  So once a NaN price has been read, the
    slow average (window 2 or more) is NaN and neither the entry nor the
    exit signal is set at any later index. *)
Theorem X14_nan_price_silences_signals (px : list B64.double)
  (P : Params B64.double) (k i : nat) :
  (2 <= slow P)%Z ->
  B64.is_nan (nth k px S754_nan) = true ->
  (k <= i < length px)%nat ->
  B64.is_nan (nth i (compute_sma px (slow P)) S754_nan) = true
  /\ long_entry (compute_sma px (fast P)) (compute_sma px (slow P)) i = false
  /\ long_exit (compute_sma px (fast P)) (compute_sma px (slow P)) i = false.
Proof.
  intros Hw Hk Hi.
  pose proof (NanB64.compute_sma_nan_price px (slow P) k i Hw Hk Hi) as Hn.
  split; [exact Hn|].
  split; apply NanB64.crossing_nan_slow, Hn.
Qed.

(** A NaN at index 1: the averages would cross upwards at index 4. *)
Lemma X14_witness :
  let px := [dz 10; S754_nan; dz 8; dz 8; dz 12; dz 12] in
  long_entry (compute_sma px 1) (compute_sma px 2) 4 = false
  /\ long_entry (compute_sma (map dz [10; 9; 8; 8; 12; 12]%Z) 1)
       (compute_sma (map dz [10; 9; 8; 8; 12; 12]%Z) 2) 4 = true.
Proof.
  split; [|vm_compute; reflexivity].
  apply (X14_nan_price_silences_signals
           [dz 10; S754_nan; dz 8; dz 8; dz 12; dz 12] plain_params 1 4).
  - vm_compute. discriminate.
  - reflexivity.
  - simpl. lia.
Defined.

(** ** The report, on doubles *)

Section TradeBound.

Context {D : Type} `{Double D}.
Local Open Scope double_scope.

Lemma closings_le (l : list (State D)) (x : State D) :
  (0 <= closings x l <= Z.of_nat (length l))%Z.
Proof.
  revert x. induction l as [|y l IH]; intros x.
  - simpl. lia.
  - cbn [closings length]. specialize (IH y).
    destruct (closes x y); lia.
Qed.

Lemma loop_obs_length (P : Params D) (px f s : list D) (idx : list nat)
  (st : State D) :
  (length (loop_obs P px f s idx st) <= 3 * length idx)%nat.
Proof.
  revert st. induction idx as [|i idx IH]; intros st; [simpl; lia|].
  cbn [loop_obs]. rewrite length_app.
  specialize (IH (candle P px f s st i)).
  assert (Hc : (length (candle_obs P px f s st i) <= 3)%nat).
  { unfold candle_obs. destruct (negb (nth i px dnan >? d0)); simpl; lia. }
  simpl length. lia.
Qed.

(** A run counts at most three sales per candle read, and one more. *)
Lemma trades_final_bound (P : Params D) (px : list D) :
  (0 <= trades (final_state P px) <= 3 * Z.of_nat (length px) + 1)%Z.
Proof.
  pose proof (chain_trades _ _ (transitions_run P px)) as Ht.
  pose proof (closings_le (tl (observations P px)) init_state) as Hc.
  unfold observations in Ht, Hc. simpl tl in Ht, Hc.
  rewrite last_last in Ht. rewrite length_app in Hc.
  pose proof (loop_obs_length P px (compute_sma px (fast P))
                (compute_sma px (slow P)) (seq 1 (length px - 1)) init_state)
    as Hl.
  rewrite length_seq in Hl. simpl length in Hc. simpl trades in Ht.
  lia.
Qed.

End TradeBound.

Module ReportB64.

Import B64 Rounding.

Local Open Scope double_scope.

(** The constant 10000.0, evaluated. *)
Definition initial_cash_bits : double :=
  Eval vm_compute in (@initial_cash double ops).

Lemma initial_cash_evaluated : @initial_cash double ops = initial_cash_bits.
Proof. vm_compute. reflexivity. Qed.

Lemma valid_sanitize (a : Params double) :
  valid (fee_rate a) -> valid (slip_bps a) ->
  valid (fee_rate (sanitize a)) /\ valid (slip_bps (sanitize a)).
Proof.
  intros Vf Vs. unfold sanitize. cbn [fee_rate slip_bps]. split.
  - destruct (fee_rate a <? d0).
    + destruct (d0 >? lit 5 100);
        [apply valid_div | apply valid_of_int].
    + destruct (fee_rate a >? lit 5 100); [apply valid_div | exact Vf].
  - destruct (slip_bps a <? d0).
    + destruct (d0 >? of_Z 1000); apply valid_of_int.
    + destruct (slip_bps a >? of_Z 1000); [apply valid_of_int | exact Vs].
Qed.

(** Total return: [final_equity / 10000 - 1] is at least [-1]. *)
Lemma total_return_ge (fe : double) :
  nonneg fe -> (- d1 <=? fe / initial_cash - d1) = true.
Proof.
  intros Hfe.
  change (SFleb (SFopp one)
            (SFsub prec emax (SFdiv prec emax fe initial_cash_bits) one)
          = true).
  unfold initial_cash_bits.
  apply sub_one_ge, nonneg_div, Hfe.
Qed.

(** Win rate: [wins / trades] is in [0, 1]. *)
Lemma win_rate_range (w t : Z) :
  (0 <= w <= t)%Z -> (0 < t < 2 ^ 53)%Z ->
  let rate : double := of_Z w / of_Z t in
  (d0 <=? rate) = true /\ (rate <=? d1) = true.
Proof.
  intros Hw Ht rate. unfold rate.
  change (nonneg (SFdiv prec emax (of_int w) (of_int t))
          /\ SFleb (SFdiv prec emax (of_int w) (of_int t)) one = true).
  destruct (of_int_le w t Hw Ht) as (q & et & Et & Hle).
  pose proof (valid_of_int t) as Vt. pose proof (valid_of_int w) as Vw.
  pose proof (nonneg_of_int w ltac:(lia)) as Nw.
  rewrite Et in *.
  split; [apply nonneg_div, Nw|].
  unfold nonneg in Nw.
  destruct (of_int w) as [s|s| |s m e]; try discriminate Nw.
  - reflexivity.
  - destruct s; [discriminate Nw | discriminate Hle].
  - destruct s; [discriminate Nw|]. apply div_le_one; assumption.
Qed.

Lemma report_ranges (st : State double) :
  sound st -> (d0 <=? maxdd st) = true ->
  (0 <= wins st <= trades st)%Z -> (trades st < 2 ^ 53)%Z ->
  let r := report st in
  final_equity r = cash st
  /\ (d0 <=? final_equity r) = true
  /\ (- d1 <=? total_return r) = true
  /\ (d0 <=? max_drawdown r) = true
  /\ (max_drawdown r <=? d1) = true
  /\ (0 <= n_trades r)%Z
  /\ (d0 <=? win_rate r) = true
  /\ (win_rate r <=? d1) = true.
Proof.
  intros (_ & _ & _ & Nc & _ & Hm1) Hm0 Hwt Ht r.
  assert (Hfe : final_equity r = cash st).
  { unfold r, report. cbn [final_equity].
    change (cash st >=? d0) with (SFleb (S754_zero false) (cash st)).
    unfold nonneg in Nc. rewrite Nc. reflexivity. }
  assert (Htr : total_return r = final_equity r / initial_cash - d1)
    by reflexivity.
  split; [exact Hfe|]. split; [rewrite Hfe; exact Nc|].
  split; [rewrite Htr, Hfe; apply total_return_ge, Nc|].
  split; [exact Hm0|]. split; [exact Hm1|]. split; [unfold r; simpl; lia|].
  unfold r, report. cbn [win_rate].
  destruct (Z.gtb_spec (trades st) 0) as [Hpos | Hzero].
  - apply win_rate_range; lia.
  - split; reflexivity.
Qed.

End ReportB64.

(** X12.  On doubles, for every series of fewer than [2^31] well-formed
    prices and every well-formed fee rate and slippage, a report that
    [ma_cross_backtest] returns has a final equity that is the cash of the
    final state and is not negative (nor NaN), a total return of at least
    -1, a drawdown in [0, 1], a trade count that is not negative and a win
    rate in [0, 1]. *)
Theorem X12_report_ranges (px : list B64.double) (a : Params B64.double)
  (r : Result B64.double) :
  Rounding.valid (fee_rate a) -> Rounding.valid (slip_bps a) ->
  Forall Rounding.valid px ->
  (Z.of_nat (length px) < 2 ^ 31)%Z ->
  ma_cross_backtest px a = inr r ->
  final_equity r = cash (final_state (sanitize a) px)
  /\ (d0 <=? final_equity r)%D = true
  /\ (- d1 <=? total_return r)%D = true
  /\ (d0 <=? max_drawdown r)%D = true
  /\ (max_drawdown r <=? d1)%D = true
  /\ (0 <= n_trades r)%Z
  /\ (d0 <=? win_rate r)%D = true
  /\ (win_rate r <=? d1)%D = true.
Proof.
  intros Vfee Vslip Vpx Hlen Hr. unfold ma_cross_backtest in Hr.
  destruct (Z.of_nat (length px) <? int_wrap (slow (sanitize a) + 2))%Z;
    [discriminate|].
  injection Hr as <-.
  destruct (ReportB64.valid_sanitize a Vfee Vslip) as [Vfee' Vslip'].
  pose proof (final_state_observed (sanitize a) px) as Hin.
  pose proof (sound_run (sanitize a) px Vfee' Vslip' Vpx) as Hs.
  pose proof (mdd_nonneg_run (sanitize a) px) as Hm0.
  pose proof (counters_run (sanitize a) px) as Hwt.
  pose proof (trades_final_bound (sanitize a) px) as Hb.
  rewrite Forall_forall in Hs, Hm0, Hwt.
  apply ReportB64.report_ranges.
  - apply Hs, Hin.
  - apply Hm0, Hin.
  - apply Hwt, Hin.
  - lia.
Qed.

(** The run on 10, 9, 8, 12, 12 with a fee of 1%: one trade, lost. *)
Lemma X12_witness :
  let r := report (final_state (sanitize fee_params) prices_held) in
  n_trades r = 1%Z
  /\ (d0 <=? final_equity r)%D = true
  /\ (- d1 <=? total_return r)%D = true
  /\ (max_drawdown r <=? d1)%D = true
  /\ win_rate r = d0.
Proof.
  intros r.
  assert (Vfee : Rounding.valid (fee_rate fee_params)) by reflexivity.
  assert (Vslip : Rounding.valid (slip_bps fee_params)) by reflexivity.
  assert (Vpx : Forall Rounding.valid prices_held) by (repeat constructor).
  destruct (X12_report_ranges prices_held fee_params r Vfee Vslip Vpx)
    as (_ & Hfe & Htr & _ & Hmd & _ & _ & _).
  - simpl. lia.
  - vm_compute. reflexivity.
  - split; [vm_compute; reflexivity|].
    split; [exact Hfe|]. split; [exact Htr|]. split; [exact Hmd|].
    vm_compute. reflexivity.
Defined.
